(** * URL hash binding (neuroglancer/ui/url_hash_binding.ts)

    A shallow embedding of [UrlHashBinding]: the outbound writer
    [setUrlHash], the redirect recovery [checkRedirectFragment] and the
    inbound reader [updateFromUrlHash], together with the ECMAScript
    built-ins they call ([encodeURI], [decodeURIComponent], the regular
    expressions, [URLSearchParams], [JSON.stringify]).

    JavaScript strings are sequences of UTF-16 code units; a code unit is
    a number below 65536, kept here as an [N].  A method of the class is a
    computation on the fields of the binding, the document URL and the
    tree, which completes normally, by a [throw] or by a [return]; the
    calls it makes of the tree and of [history] are logged in order.  The
    constructor only registers the [hashchange] listener and the debounced
    writer, and has no counterpart here. *)

From Stdlib Require Import List NArith ZArith Lia Bool String Ascii.
From Stdlib Require Import HexadecimalString.
Import ListNotations.

Local Open Scope N_scope.
Local Open Scope list_scope.

(** ** Strings *)

Module JsString.

Abbreviation codeunit := N (only parsing).
Abbreviation jsstring := (list N) (only parsing).

(** An ASCII literal as a JavaScript string. *)
Definition js (s : string) : jsstring :=
  map N_of_ascii (list_ascii_of_string s).

Fixpoint str_eqb (a b : jsstring) : bool :=
  match a, b with
  | [], [] => true
  | x :: a', y :: b' => (x =? y) && str_eqb a' b'
  | _, _ => false
  end.

(** [a === b] where either side may be [undefined]. *)
Definition opt_str_eqb (a b : option jsstring) : bool :=
  match a, b with
  | Some x, Some y => str_eqb x y
  | None, None => true
  | _, _ => false
  end.

(** [s.startsWith(p)] *)
Fixpoint startsWith (p s : jsstring) : bool :=
  match p, s with
  | [], _ => true
  | x :: p', y :: s' => (x =? y) && startsWith p' s'
  | _ :: _, [] => false
  end.

(** [s.slice(n)] for a non-negative [n]; [s.substring(n)] agrees with it. *)
Definition slice (n : nat) (s : jsstring) : jsstring := skipn n s.

(** Every element is a 16-bit code unit. *)
Definition codeUnits (s : jsstring) : bool := forallb (fun c => c <? 65536) s.

Definition isLeadSurrogate (c : codeunit) : bool := (55296 <=? c) && (c <=? 56319).
Definition isTrailSurrogate (c : codeunit) : bool := (56320 <=? c) && (c <=? 57343).

(** No unpaired surrogate: the strings [encodeURI] accepts. *)
Fixpoint well_formed (s : jsstring) : bool :=
  match s with
  | [] => true
  | c :: rest =>
      if isLeadSurrogate c then
        match rest with
        | c2 :: rest' => isTrailSurrogate c2 && well_formed rest'
        | [] => false
        end
      else if isTrailSurrogate c then false
      else (c <? 65536) && well_formed rest
  end.

(** Line terminators, which [.] of a regular expression does not match. *)
Definition isLineTerminator (c : codeunit) : bool :=
  (c =? 10) || (c =? 13) || (c =? 8232) || (c =? 8233).

End JsString.
Export JsString.

(** ** Errors and results *)

(** The exceptions the binding can catch.  [OtherError] stands for what an
    external collaborator throws. *)
Inductive Error : Type :=
| URIError
| SyntaxError
| NotAnObject
| MalformedFragment
| OtherError (n : N).

Inductive Result (A : Type) : Type :=
| Ok (a : A)
| Raise (e : Error).
Arguments Ok {A} a.
Arguments Raise {A} e.

Definition rbind {A B} (r : Result A) (f : A -> Result B) : Result B :=
  match r with
  | Ok a => f a
  | Raise e => Raise e
  end.

Definition rmap {A B} (f : A -> B) (r : Result A) : Result B :=
  rbind r (fun a => Ok (f a)).

(** ** URI encoding and decoding (ECMA-262, Encode and Decode) *)

Module Uri.

Definition isAlpha (c : codeunit) : bool :=
  ((65 <=? c) && (c <=? 90)) || ((97 <=? c) && (c <=? 122)).
Definition isDigit (c : codeunit) : bool := (48 <=? c) && (c <=? 57).

Definition mem (c : codeunit) (set : jsstring) : bool := existsb (N.eqb c) set.

(** uriReserved, uriMark and the set [encodeURI] leaves alone. *)
Definition uriReserved : jsstring := js ";/?:@&=+$,".
Definition uriMark : jsstring := js "-_.!~*'()".
Definition uriUnescaped (c : codeunit) : bool := isAlpha c || isDigit c || mem c uriMark.
Definition encodeURI_unescaped (c : codeunit) : bool :=
  mem c uriReserved || uriUnescaped c || (c =? 35).

Definition hexUpper (d : N) : codeunit := if d <? 10 then 48 + d else 55 + d.

Definition hexValue (c : codeunit) : option N :=
  if isDigit c then Some (c - 48)
  else if (65 <=? c) && (c <=? 70) then Some (c - 55)
  else if (97 <=? c) && (c <=? 102) then Some (c - 87)
  else None.

(** ["%XX"], upper case, for one octet. *)
Definition pct (b : N) : jsstring := [37; hexUpper (b / 16); hexUpper (b mod 16)].

Definition utf8 (cp : N) : list N :=
  if cp <? 128 then [cp]
  else if cp <? 2048 then [192 + cp / 64; 128 + cp mod 64]
  else if cp <? 65536 then
    [224 + cp / 4096; 128 + (cp / 64) mod 64; 128 + cp mod 64]
  else
    [240 + cp / 262144; 128 + (cp / 4096) mod 64;
     128 + (cp / 64) mod 64; 128 + cp mod 64].

Definition pct_utf8 (cp : N) : jsstring := flat_map pct (utf8 cp).

(** A Unicode scalar value: a code point that is not a surrogate. *)
Definition scalar (cp : N) : Prop :=
  cp < 1114112 /\ ~ (55296 <= cp <= 57343).

Definition pairCodePoint (hi lo : codeunit) : N :=
  (hi - 55296) * 1024 + (lo - 56320) + 65536.

(** Encode(string, unescapedSet): a code unit of the set is copied; any
    other code point is written as the ["%XX"] of its UTF-8 octets; an
    unpaired surrogate throws URIError. *)
Fixpoint Encode (unescaped : codeunit -> bool) (s : jsstring) : Result jsstring :=
  match s with
  | [] => Ok []
  | c :: rest =>
      if unescaped c then rmap (cons c) (Encode unescaped rest)
      else if isTrailSurrogate c then Raise URIError
      else if isLeadSurrogate c then
        match rest with
        | c2 :: rest' =>
            if isTrailSurrogate c2
            then rmap (app (pct_utf8 (pairCodePoint c c2))) (Encode unescaped rest')
            else Raise URIError
        | [] => Raise URIError
        end
      else rmap (app (pct_utf8 c)) (Encode unescaped rest)
  end.

Definition encodeURI (s : jsstring) : Result jsstring := Encode encodeURI_unescaped s.

(** Decode reads the string as literal code units and ["%XX"] octets; a
    ["%"] not followed by two hexadecimal digits throws URIError. *)
Inductive token : Type :=
| Lit (c : codeunit)
| Oct (b : N).

Fixpoint tokens (s : jsstring) : Result (list token) :=
  match s with
  | [] => Ok []
  | c :: rest =>
      if c =? 37 then
        match rest with
        | h1 :: h2 :: rest' =>
            match hexValue h1, hexValue h2 with
            | Some d1, Some d2 => rmap (cons (Oct (16 * d1 + d2))) (tokens rest')
            | _, _ => Raise URIError
            end
        | _ => Raise URIError
        end
      else rmap (cons (Lit c)) (tokens rest)
  end.

Definition isCont (b : N) : bool := (128 <=? b) && (b <=? 191).

Definition utf16 (cp : N) : jsstring :=
  if cp <? 65536 then [cp]
  else [55296 + (cp - 65536) / 1024; 56320 + (cp - 65536) mod 1024].

(** The octets of a lead octet >= 0x80 must be a valid UTF-8 encoding of
    one code point (no overlong form, no surrogate, at most U+10FFFF),
    each continuation octet written as ["%XX"] too; otherwise URIError.
    The reserved set of [decodeURIComponent] is empty, so every octet
    below 0x80 is decoded. *)
Fixpoint decodeTokens (ts : list token) : Result jsstring :=
  match ts with
  | [] => Ok []
  | Lit c :: r => rmap (cons c) (decodeTokens r)
  | Oct b :: r =>
      if b <? 128 then rmap (cons b) (decodeTokens r)
      else if (194 <=? b) && (b <=? 223) then
        match r with
        | Oct b2 :: r2 =>
            if isCont b2
            then rmap (app (utf16 ((b - 192) * 64 + (b2 - 128)))) (decodeTokens r2)
            else Raise URIError
        | _ => Raise URIError
        end
      else if (224 <=? b) && (b <=? 239) then
        match r with
        | Oct b2 :: Oct b3 :: r3 =>
            let cp := (b - 224) * 4096 + (b2 - 128) * 64 + (b3 - 128) in
            if isCont b2 && isCont b3 && (2048 <=? cp)
               && negb ((55296 <=? cp) && (cp <=? 57343))
            then rmap (app (utf16 cp)) (decodeTokens r3)
            else Raise URIError
        | _ => Raise URIError
        end
      else if (240 <=? b) && (b <=? 244) then
        match r with
        | Oct b2 :: Oct b3 :: Oct b4 :: r4 =>
            let cp := (b - 240) * 262144 + (b2 - 128) * 4096
                      + (b3 - 128) * 64 + (b4 - 128) in
            if isCont b2 && isCont b3 && isCont b4
               && (65536 <=? cp) && (cp <=? 1114111)
            then rmap (app (utf16 cp)) (decodeTokens r4)
            else Raise URIError
        | _ => Raise URIError
        end
      else Raise URIError
  end.

Definition decodeURIComponent (s : jsstring) : Result jsstring :=
  rbind (tokens s) decodeTokens.

End Uri.
Export Uri.


(** ** JSON values and [JSON.stringify] *)

Module Json.

(** JSON-compatible values.  Numbers are the integers, printed in decimal
    as [JSON.stringify] prints a Number of integral value below 10^21.
    The integers that are Numbers without rounding are those of
    [isSafeInteger]; a value all of whose numbers are such is one of
    [json_safeIntegers], and on these [JSON_stringify] is
    [JSON.stringify].  Fractions, and the exponent form that
    [JSON.stringify] writes from 10^21 on, are outside the type. *)
#[warnings="-register-all"]
Inductive json : Type :=
| JNull
| JBool (b : bool)
| JNumber (z : Z)
| JString (s : jsstring)
| JArray (items : list json)
| JObject (members : list (jsstring * json)).

Definition isObject (j : json) : bool :=
  match j with
  | JObject _ => true
  | _ => false
  end.

Definition hexLower (d : N) : codeunit := if d <? 10 then 48 + d else 87 + d.

(** UnicodeEscape: a backslash, [u] and four lower-case hexadecimal digits. *)
Definition unicodeEscape (c : codeunit) : jsstring :=
  [92; 117; hexLower (c / 4096); hexLower ((c / 256) mod 16);
   hexLower ((c / 16) mod 16); hexLower (c mod 16)].

Definition quoteChar (c : codeunit) : jsstring :=
  if c =? 8 then [92; 98]
  else if c =? 9 then [92; 116]
  else if c =? 10 then [92; 110]
  else if c =? 12 then [92; 102]
  else if c =? 13 then [92; 114]
  else if c =? 34 then [92; 34]
  else if c =? 92 then [92; 92]
  else if c <? 32 then unicodeEscape c
  else [c].

(** The body of QuoteJSONString: the string is read by code points, and
    an unpaired surrogate is written as a Unicode escape. *)
Fixpoint quoteBody (s : jsstring) : jsstring :=
  match s with
  | [] => []
  | c :: rest =>
      if isLeadSurrogate c then
        match rest with
        | c2 :: rest' =>
            if isTrailSurrogate c2 then c :: c2 :: quoteBody rest'
            else unicodeEscape c ++ quoteBody rest
        | [] => unicodeEscape c
        end
      else if isTrailSurrogate c then unicodeEscape c ++ quoteBody rest
      else quoteChar c ++ quoteBody rest
  end.

Definition QuoteJSONString (s : jsstring) : jsstring := [34] ++ quoteBody s ++ [34].

(** The decimal digits of [n], most significant first; [fuel] bounds
    their number. *)
Fixpoint digits (fuel : nat) (n : N) : jsstring :=
  match fuel with
  | O => []
  | S fuel' => (if n <? 10 then [] else digits fuel' (n / 10)) ++ [48 + n mod 10]
  end.

Definition naturalToString (n : N) : jsstring := digits (S (N.to_nat (N.log2 n))) n.

Definition numberToString (z : Z) : jsstring :=
  match z with
  | Z0 => js "0"
  | Zpos p => naturalToString (Npos p)
  | Zneg p => [45] ++ naturalToString (Npos p)
  end.

(** [parts.join(",")] *)
Fixpoint joinComma (parts : list jsstring) : jsstring :=
  match parts with
  | [] => []
  | [p] => p
  | p :: ps => p ++ [44] ++ joinComma ps
  end.

(** [JSON.stringify(value)] without replacer or indentation. *)
Fixpoint JSON_stringify (j : json) : jsstring :=
  match j with
  | JNull => js "null"
  | JBool true => js "true"
  | JBool false => js "false"
  | JNumber z => numberToString z
  | JString s => QuoteJSONString s
  | JArray items => [91] ++ joinComma (map JSON_stringify items) ++ [93]
  | JObject members =>
      [123]
      ++ joinComma (map (fun kv => QuoteJSONString (fst kv) ++ [58]
                                   ++ JSON_stringify (snd kv)) members)
      ++ [125]
  end.

(** Every string of the value is a sequence of 16-bit code units. *)
Fixpoint json_codeUnits (j : json) : bool :=
  match j with
  | JString s => codeUnits s
  | JArray items => forallb json_codeUnits items
  | JObject members =>
      forallb (fun kv => codeUnits (fst kv) && json_codeUnits (snd kv)) members
  | _ => true
  end.

(** [Number.isSafeInteger]: at most 2^53 - 1 in absolute value. *)
Definition isSafeInteger (z : Z) : bool := (Z.abs z <=? 9007199254740991)%Z.

(** Every number of the value is a safe integer. *)
Fixpoint json_safeIntegers (j : json) : bool :=
  match j with
  | JNumber z => isSafeInteger z
  | JArray items => forallb json_safeIntegers items
  | JObject members => forallb (fun kv => json_safeIntegers (snd kv)) members
  | _ => true
  end.

End Json.
Export Json.


(** ** The regular expressions and string built-ins of the file *)

Module Builtins.

(** [n.toString(16)] for a non-negative integer. *)
Definition toString16 (n : N) : jsstring :=
  js (HexadecimalString.NilZero.string_of_uint (N.to_hex_uint n)).

(** [s.toUpperCase()] on the ASCII letters, the only ones it meets here. *)
Definition toUpperCase (s : jsstring) : jsstring :=
  map (fun c => if (97 <=? c) && (c <=? 122) then c - 32 else c) s.

(** [s.replace(/re/g, f)] for a regular expression [re] that is one
    character class: every code unit of the class is replaced by [f]. *)
Definition replaceEach (class : codeunit -> bool) (f : codeunit -> jsstring)
    (s : jsstring) : jsstring :=
  flat_map (fun c => if class c then f c else [c]) s.

Fixpoint dropWhile (p : codeunit -> bool) (s : jsstring) : jsstring :=
  match s with
  | [] => []
  | c :: rest => if p c then dropWhile p rest else s
  end.

Fixpoint takeWhile (p : codeunit -> bool) (s : jsstring) : jsstring :=
  match s with
  | [] => []
  | c :: rest => if p c then c :: takeWhile p rest else []
  end.

(** The part of [s] after its last ["?"], if it has one. *)
Fixpoint afterLast63 (s : jsstring) : option jsstring :=
  match s with
  | [] => None
  | c :: rest =>
      match afterLast63 rest with
      | Some t => Some t
      | None => if c =? 63 then Some rest else None
      end
  end.

(** [s.replace(/^.*\?/, '')]: [.*] is greedy and stops at a line
    terminator, so the match ends at the last ["?"] of the first line. *)
Definition replace_upto_question (s : jsstring) : jsstring :=
  let line := takeWhile (fun c => negb (isLineTerminator c)) s in
  match afterLast63 line with
  | Some t => t ++ dropWhile (fun c => negb (isLineTerminator c)) s
  | None => s
  end.

(** [s.replace(/^[^#]+/, '')] *)
Definition replace_before_hash (s : jsstring) : jsstring :=
  dropWhile (fun c => negb (c =? 35)) s.

(** The remote-state pattern of [updateFromUrlHash]: ["#!"], a lower-case
    letter, any number of code units of the class [a-z\d+-.], then
    ["://"].  In the class, [+-.] is the range from ["+"] to ["."]. *)
Definition isLower (c : codeunit) : bool := (97 <=? c) && (c <=? 122).
Definition isSchemeChar (c : codeunit) : bool :=
  isLower c || isDigit c || ((43 <=? c) && (c <=? 46)).

Definition matchRemote (s : jsstring) : bool :=
  match s with
  | 35 :: 33 :: c :: rest =>
      isLower c && startsWith (js "://") (dropWhile isSchemeChar rest)
  | _ => false
  end.

End Builtins.
Export Builtins.

(** ** [URLSearchParams] (WHATWG URL, application/x-www-form-urlencoded) *)

Module SearchParams.

(** The UTF-8 octets of a string; an unpaired surrogate becomes U+FFFD. *)
Fixpoint utf8Bytes (s : jsstring) : list N :=
  match s with
  | [] => []
  | c :: rest =>
      if isLeadSurrogate c then
        match rest with
        | c2 :: rest' =>
            if isTrailSurrogate c2 then utf8 (pairCodePoint c c2) ++ utf8Bytes rest'
            else utf8 65533 ++ utf8Bytes rest
        | [] => utf8 65533
        end
      else if isTrailSurrogate c then utf8 65533 ++ utf8Bytes rest
      else utf8 c ++ utf8Bytes rest
  end.

Fixpoint splitOn (sep : N) (bs : list N) : list (list N) :=
  match bs with
  | [] => [[]]
  | b :: rest =>
      if b =? sep then [] :: splitOn sep rest
      else match splitOn sep rest with
           | cur :: others => (b :: cur) :: others
           | [] => [[b]]
           end
  end.

(** Percent-decode of a byte sequence: a ["%"] not followed by two
    hexadecimal digits is kept. *)
Fixpoint percentDecode (bs : list N) : list N :=
  match bs with
  | [] => []
  | b :: rest =>
      if b =? 37 then
        match rest with
        | h1 :: h2 :: rest' =>
            match hexValue h1, hexValue h2 with
            | Some d1, Some d2 => (16 * d1 + d2) :: percentDecode rest'
            | _, _ => b :: percentDecode rest
            end
        | _ => b :: percentDecode rest
        end
      else b :: percentDecode rest
  end.

(** The state of the UTF-8 decoder between two bytes. *)
Record dstate : Type := mkD {
  d_cp : N; d_needed : nat; d_lower : N; d_upper : N }.

Definition d_init : dstate := mkD 0 0 128 191.

(** A byte met with no sequence pending. *)
Definition d_start (b : N) : jsstring * dstate :=
  if b <? 128 then ([b], d_init)
  else if (194 <=? b) && (b <=? 223) then ([], mkD (b - 192) 1 128 191)
  else if (224 <=? b) && (b <=? 239) then
    ([], mkD (b - 224) 2 (if b =? 224 then 160 else 128) (if b =? 237 then 159 else 191))
  else if (240 <=? b) && (b <=? 244) then
    ([], mkD (b - 240) 3 (if b =? 240 then 144 else 128) (if b =? 244 then 143 else 191))
  else ([65533], d_init).

(** UTF-8 decode without BOM; every error yields U+FFFD, and the byte
    that broke a sequence is read again. *)
Fixpoint utf8Decode (st : dstate) (bs : list N) : jsstring :=
  match bs with
  | [] => match d_needed st with O => [] | S _ => [65533] end
  | b :: rest =>
      match d_needed st with
      | O => let (out, st') := d_start b in out ++ utf8Decode st' rest
      | S n =>
          if (d_lower st <=? b) && (b <=? d_upper st) then
            let cp := d_cp st * 64 + (b - 128) in
            match n with
            | O => utf16 cp ++ utf8Decode d_init rest
            | S _ => utf8Decode (mkD cp n 128 191) rest
            end
          else
            let (out, st') := d_start b in
            [65533] ++ out ++ utf8Decode st' rest
      end
  end.

Definition plusToSpace (bs : list N) : list N :=
  map (fun b => if b =? 43 then 32 else b) bs.

Definition decodeField (bs : list N) : jsstring :=
  utf8Decode d_init (percentDecode (plusToSpace bs)).

Fixpoint splitFirst61 (bs : list N) : list N * list N :=
  match bs with
  | [] => ([], [])
  | b :: rest =>
      if b =? 61 then ([], rest)
      else let (n, v) := splitFirst61 rest in (b :: n, v)
  end.

(** [new URLSearchParams(init)]: the list of name-value pairs. *)
Definition URLSearchParams (init : jsstring) : list (jsstring * jsstring) :=
  let input := match init with 63 :: rest => rest | _ => init end in
  flat_map (fun field =>
              match field with
              | [] => []
              | _ => let (n, v) := splitFirst61 field in
                     [(decodeField n, decodeField v)]
              end)
           (splitOn 38 (utf8Bytes input)).

(** [params.get(name)], [None] being [null]; [params.has(name)] is
    whether it is a [Some]. *)
Fixpoint params_get (name : jsstring) (params : list (jsstring * jsstring))
    : option jsstring :=
  match params with
  | [] => None
  | (n, v) :: rest => if str_eqb n name then Some v else params_get name rest
  end.

Definition params_has (name : jsstring) (params : list (jsstring * jsstring)) : bool :=
  match params_get name params with
  | Some _ => true
  | None => false
  end.

End SearchParams.
Export SearchParams.

(** ** The module-level functions of the file *)

(** [encodeFragment]: [encodeURI], then each of [! ' ( ) * ; ,] replaced
    by ["%"] and its code in upper-case hexadecimal. *)
Definition isExtraEscaped (c : codeunit) : bool := mem c (js "!'()*;,").

(** [.replace(/[!'()*;,]/g, function(c) {...})] *)
Definition escapeExtra : jsstring -> jsstring :=
  replaceEach isExtraEscaped (fun c => [37] ++ toUpperCase (toString16 c)).

Definition encodeFragment (fragment : jsstring) : Result jsstring :=
  rmap escapeExtra (encodeURI fragment).


(** [removeParameterFromUrl(url, parameter)] makes two replacements.  The
    first pattern is [[?&]], the parameter, ["="], a greedy run of
    [[^&#]], an optional group ["#" .*] and the end of input; the match is
    replaced by the group.  The second is a captured [[?&]], the
    parameter, ["="], a greedy run of [[^&]] and ["&"]; the match is
    replaced by the captured character.

    [new RegExp] reads the parameter as part of a pattern.  The embedding
    is that of the two patterns for a parameter that is a [literalPattern]:
    each of its code units is a PatternCharacter of ECMA-262, which
    matches itself.  Outside it (a parameter with ["."], ["+"], ["("] and
    the like) the patterns match other text or do not compile, and the
    embedding says nothing.  The one parameter of this file, ["json_url"],
    is a [literalPattern]. *)

(** SyntaxCharacter of ECMA-262: the code units with a meaning of their
    own in a pattern. *)
Definition isSyntaxCharacter (c : codeunit) : bool := mem c (js "^$\.*+?()[]{}|").

Definition literalPattern (parameter : jsstring) : bool :=
  forallb (fun c => negb (isSyntaxCharacter c)) parameter.

Definition isQueryMark (c : codeunit) : bool := (c =? 63) || (c =? 38).

Definition matchTrailing (parameter s : jsstring) : option jsstring :=
  match s with
  | c :: s1 =>
      if isQueryMark c && startsWith (parameter ++ [61]) s1 then
        match dropWhile (fun x => negb ((x =? 38) || (x =? 35)))
                        (skipn (S (List.length parameter)) s1) with
        | [] => Some []
        | h :: t =>
            if (h =? 35) && forallb (fun x => negb (isLineTerminator x)) t
            then Some (h :: t) else None
        end
      else None
  | [] => None
  end.

Fixpoint replaceTrailing (parameter s : jsstring) : jsstring :=
  match matchTrailing parameter s with
  | Some group => group
  | None => match s with
            | [] => []
            | c :: rest => c :: replaceTrailing parameter rest
            end
  end.

Definition matchInner (parameter s : jsstring) : option jsstring :=
  match s with
  | c :: s1 =>
      if isQueryMark c && startsWith (parameter ++ [61]) s1 then
        match dropWhile (fun x => negb (x =? 38))
                        (skipn (S (List.length parameter)) s1) with
        | _ :: t => Some (c :: t)
        | [] => None
        end
      else None
  | [] => None
  end.

Fixpoint replaceInner (parameter s : jsstring) : jsstring :=
  match matchInner parameter s with
  | Some r => r
  | None => match s with
            | [] => []
            | c :: rest => c :: replaceInner parameter rest
            end
  end.

Definition removeParameterFromUrl (url parameter : jsstring) : jsstring :=
  replaceInner parameter (replaceTrailing parameter url).

(** ** The collaborators *)

(** The observable state tree, [Trackable] of neuroglancer/util/trackable:
    its JSON value, the count of its [changed] signal, [reset()] and
    [restoreState(obj)], which may throw after changing part of the tree. *)
Class Trackable (T : Type) : Type := {
  toJSON : T -> json;
  changed_count : T -> Z;
  reset : T -> T;
  restoreState : json -> T -> T * option Error
}.

Record CachedJson : Type := { value : json; generation : Z }.

(** Modelled from the spec: [getCachedJson] of neuroglancer/util/trackable,
    which is not among the sources; it reads "the tree's current value and
    generation atomically as a pair". *)
Definition getCachedJson {T} `{Trackable T} (root : T) : CachedJson :=
  {| value := toJSON root; generation := changed_count root |}.

(** Modelled from the spec: [verifyObject] of neuroglancer/util/json, which
    is not among the sources; it "fails if not an object". *)
Definition verifyObject (j : json) : Result json :=
  if isObject j then Ok j else Raise NotAnObject.

(** What the binding asks of the world outside it, in the order asked. *)
Inductive Call : Type :=
| CReplaceState (url : jsstring)
| CReset
| CRestoreState (state : json)
| CFetch (url : jsstring).

(** [history.replaceState(null, '', url)] as [location.href] sees it: a
    [url] that starts with ["#"] replaces the fragment of the document
    URL, any other [url] is taken as the whole new URL (the only two
    kinds [setUrlHash] passes). *)
Definition resolveUrl (base url : jsstring) : jsstring :=
  match url with
  | 35 :: _ => takeWhile (fun c => negb (c =? 35)) base ++ url
  | _ => url
  end.

(** ** The binding and its state *)

(** How a statement completes: normally, by a [throw], or by [return]. *)
Inductive Completion (A : Type) : Type :=
| Normal (a : A)
| Throw (e : Error)
| Return.
Arguments Normal {A} a.
Arguments Throw {A} e.
Arguments Return {A}.

Section Binding.

Context {T : Type} `{Trackable T}.

(** [urlSafeParse] of neuroglancer/util/json and [parseSpecialUrl] of
    neuroglancer/util/special_protocol_request are not among the sources;
    each is a function that returns or throws. *)
Variable urlSafeParse : jsstring -> Result json.
Variable parseSpecialUrl : jsstring -> Result jsstring.

(** The fields of [UrlHashBinding], the document URL and the calls made. *)
Record World : Type := mkWorld {
  root : T;
  href : jsstring;
  prevStateString : option jsstring;
  prevStateGeneration : option Z;
  parseError : option Error;
  calls : list Call
}.

Definition M (A : Type) : Type := World -> Completion A * World.

Definition ret {A} (a : A) : M A := fun w => (Normal a, w).

Definition bind {A B} (m : M A) (k : A -> M B) : M B :=
  fun w => match m w with
           | (Normal a, w') => k a w'
           | (Throw e, w') => (Throw e, w')
           | (Return, w') => (Return, w')
           end.

Definition throw {A} (e : Error) : M A := fun w => (Throw e, w).
Definition return_ {A} : M A := fun w => (Return, w).

Definition lift {A} (r : Result A) : M A :=
  match r with
  | Ok a => ret a
  | Raise e => throw e
  end.

Definition try_catch (body : M unit) (handler : Error -> M unit) : M unit :=
  fun w => match body w with
           | (Throw e, w') => handler e w'
           | other => other
           end.

Definition gets {A} (f : World -> A) : M A := fun w => (Normal (f w), w).
Definition modify (f : World -> World) : M unit := fun w => (Normal tt, f w).

Definition set_href (h : jsstring) (w : World) : World :=
  mkWorld (root w) h (prevStateString w) (prevStateGeneration w) (parseError w) (calls w).
Definition set_root (r : T) (w : World) : World :=
  mkWorld r (href w) (prevStateString w) (prevStateGeneration w) (parseError w) (calls w).
Definition set_prevStateString (s : option jsstring) (w : World) : World :=
  mkWorld (root w) (href w) s (prevStateGeneration w) (parseError w) (calls w).
Definition set_prevStateGeneration (g : option Z) (w : World) : World :=
  mkWorld (root w) (href w) (prevStateString w) g (parseError w) (calls w).
Definition set_parseError (e : option Error) (w : World) : World :=
  mkWorld (root w) (href w) (prevStateString w) (prevStateGeneration w) e (calls w).
Definition log (c : Call) (w : World) : World :=
  mkWorld (root w) (href w) (prevStateString w) (prevStateGeneration w) (parseError w)
          (calls w ++ [c]).


Notation "x <- m ;; k" := (bind m (fun x => k))
  (at level 61, m at next level, right associativity).
Notation "m ;;; k" := (bind m (fun _ => k))
  (at level 61, right associativity).

(** [history.replaceState(null, '', url)] *)
Definition history_replaceState (url : jsstring) : M unit :=
  modify (fun w => log (CReplaceState url) (set_href (resolveUrl (href w) url) w)).

(** [this.root.reset()] *)
Definition root_reset : M unit :=
  modify (fun w => log CReset (set_root (reset (root w)) w)).

(** [this.root.restoreState(state)] *)
Definition root_restoreState (state : json) : M unit :=
  fun w =>
    let (r, err) := restoreState state (root w) in
    let w' := log (CRestoreState state) (set_root r w) in
    match err with
    | None => (Normal tt, w')
    | Some e => (Throw e, w')
    end.

(** [setUrlHash()] *)
Definition setUrlHash : M unit :=
  cacheState <- gets (fun w => getCachedJson (root w)) ;;
  let generation_ := generation cacheState in
  h <- gets href ;;
  history_replaceState (removeParameterFromUrl h (js "json_url")) ;;;
  prevGeneration <- gets prevStateGeneration ;;
  if negb (match prevGeneration with
           | Some g => Z.eqb generation_ g
           | None => false
           end)
  then
    modify (set_prevStateGeneration (Some (generation cacheState))) ;;;
    stateString <- lift (encodeFragment (JSON_stringify (value cacheState))) ;;
    prevString <- gets prevStateString ;;
    if negb (opt_str_eqb (Some stateString) prevString) then
      modify (set_prevStateString (Some stateString)) ;;;
      decoded <- lift (decodeURIComponent stateString) ;;
      if str_eqb decoded (js "{}")
      then history_replaceState (js "#")
      else history_replaceState (js "#!" ++ stateString)
    else ret tt
  else ret tt.

(** [checkRedirectFragment()] *)
Definition checkRedirectFragment : M (bool * jsstring) :=
  h <- gets href ;;
  let justQuery := replace_upto_question h in
  let params := URLSearchParams justQuery in
  if negb (params_has (js "redirect_fragment") params) then ret (false, [])
  else ret (true, [35] ++ match params_get (js "redirect_fragment") params with
                          | Some v => v
                          | None => js "null"
                          end).

(** The string [s] that [updateFromUrlHash] classifies: the recovered
    fragment, or the fragment of the URL with the three empty forms read
    as ["#!{}"]. *)
Definition effectiveFragment (found : bool) (fragment : jsstring) : M jsstring :=
  if negb found then
    h <- gets href ;;
    let s := replace_before_hash h in
    if str_eqb s [] || str_eqb s (js "#") || str_eqb s (js "#!")
    then ret (js "#!{}")
    else ret s
  else ret fragment.

(** The chain of [if ... else if ...] of [updateFromUrlHash]: the remote
    form, the legacy ["#!+"] form, the standard ["#!"] form, or a throw. *)
Definition applyFragment (found : bool) (s : jsstring) : M unit :=
  if matchRemote s then
    let url := slice 2 s in
    parsedUrl <- lift (parseSpecialUrl url) ;;
    modify (log (CFetch parsedUrl))
  else if startsWith (js "#!+") s then
    let s := slice 3 s in
    s <- lift (decodeURIComponent s) ;;
    s <- (if found then lift (decodeURIComponent s) else ret s) ;;
    state <- lift (urlSafeParse s) ;;
    _ <- lift (verifyObject state) ;;
    root_restoreState state ;;;
    modify (set_prevStateString None)
  else if startsWith (js "#!") s then
    let s := slice 2 s in
    s <- lift (decodeURIComponent s) ;;
    s <- (if found then lift (decodeURIComponent s) else ret s) ;;
    prevString <- gets prevStateString ;;
    (if opt_str_eqb (Some s) prevString then return_ else ret tt) ;;;
    modify (set_prevStateString (Some s)) ;;;
    root_reset ;;;
    state <- lift (urlSafeParse s) ;;
    _ <- lift (verifyObject state) ;;
    root_restoreState state
  else throw MalformedFragment.

(** The body of the [try] block of [updateFromUrlHash]. *)
Definition updateFromUrlHash_try : M unit :=
  r <- checkRedirectFragment ;;
  let found := fst r in
  let fragment := snd r in
  s <- effectiveFragment found fragment ;;
  applyFragment found s ;;;
  modify (set_parseError None).

(** [updateFromUrlHash()] *)
Definition updateFromUrlHash : M unit :=
  try_catch updateFromUrlHash_try
            (fun parseError => modify (set_parseError (Some parseError))).

(** The callback of the remote fetch, run when the promise resolves. *)
Definition remoteStateLoaded (fetched : json) : M unit :=
  _ <- lift (verifyObject fetched) ;;
  root_reset ;;;
  root_restoreState fetched.

(** The world when the call of a method has ended. *)
Definition after (m : M unit) (w : World) : World := snd (m w).

End Binding.

Arguments World T : clear implicits.
Arguments M T A : clear implicits.

(** ** A concrete tree and a concrete reader *)

Module Concrete.

(** Modelled from the spec: a state tree with "a monotonically increasing
    generation number that changes exactly when the value changes";
    [reset()] clears it to the empty object and [restoreState(obj)]
    replaces its contents.  The tree of the application is not among the
    sources. *)
Record Tree : Type := mkTree { tree_value : json; tree_count : Z }.

#[export] Instance Tree_Trackable : Trackable Tree := {
  toJSON t := tree_value t;
  changed_count t := tree_count t;
  reset t := mkTree (JObject []) (tree_count t + 1);
  restoreState state t := (mkTree state (tree_count t + 1), None)
}.

Definition isWhitespace (c : codeunit) : bool :=
  (c =? 32) || (c =? 9) || (c =? 10) || (c =? 13).

Fixpoint skipWhitespace (s : jsstring) : jsstring :=
  match s with
  | c :: rest => if isWhitespace c then skipWhitespace rest else s
  | [] => []
  end.

Definition consChar (c : codeunit) (r : option (jsstring * jsstring))
    : option (jsstring * jsstring) :=
  option_map (fun p => (c :: fst p, snd p)) r.

(** The characters of a string literal after its opening quote. *)
Fixpoint parseChars (s : jsstring) : option (jsstring * jsstring) :=
  match s with
  | [] => None
  | c :: rest =>
      if c =? 34 then Some ([], rest)
      else if c =? 92 then
        match rest with
        | e :: rest1 =>
            let simple (x : codeunit) := consChar x (parseChars rest1) in
            if e =? 34 then simple 34
            else if e =? 92 then simple 92
            else if e =? 47 then simple 47
            else if e =? 98 then simple 8
            else if e =? 102 then simple 12
            else if e =? 110 then simple 10
            else if e =? 114 then simple 13
            else if e =? 116 then simple 9
            else if e =? 117 then
              match rest1 with
              | h1 :: h2 :: h3 :: h4 :: rest2 =>
                  match hexValue h1, hexValue h2, hexValue h3, hexValue h4 with
                  | Some d1, Some d2, Some d3, Some d4 =>
                      consChar (4096 * d1 + 256 * d2 + 16 * d3 + d4) (parseChars rest2)
                  | _, _, _, _ => None
                  end
              | _ => None
              end
            else None
        | [] => None
        end
      else if c <? 32 then None
      else consChar c (parseChars rest)
  end.

Fixpoint parseDigits (acc : Z) (s : jsstring) : Z * jsstring :=
  match s with
  | c :: rest => if isDigit c then parseDigits (10 * acc + Z.of_N (c - 48)) rest
                 else (acc, s)
  | [] => (acc, [])
  end.

(** What may not follow the digits of an integer literal: a digit, and
    the start of a fraction or of an exponent, which are outside [json]. *)
Definition continuesNumber (c : codeunit) : bool :=
  (c =? 46) || (c =? 101) || (c =? 69) || isDigit c.

Definition parseNatural (s : jsstring) : option (Z * jsstring) :=
  match s with
  | c :: rest =>
      if c =? 48 then Some (0%Z, rest)
      else if isDigit c then Some (parseDigits 0 s)
      else None
  | [] => None
  end.

Definition checkNumberEnd (r : option (Z * jsstring)) : option (Z * jsstring) :=
  match r with
  | Some (z, c :: rest) => if continuesNumber c then None else Some (z, c :: rest)
  | other => other
  end.

Definition parseInteger (s : jsstring) : option (Z * jsstring) :=
  match s with
  | c :: rest =>
      if c =? 45
      then option_map (fun p => (Z.opp (fst p), snd p))
                      (checkNumberEnd (parseNatural rest))
      else checkNumberEnd (parseNatural s)
  | [] => None
  end.

(** The value of a sequence of digits. *)
Definition digitsValue (ds : jsstring) (acc : Z) : Z :=
  fold_left (fun a c => (10 * a + Z.of_N (c - 48))%Z) ds acc.

(** What follows a value in a text ends an integer literal. *)
Definition delimited (rest : jsstring) : Prop :=
  match rest with
  | [] => True
  | c :: _ => continuesNumber c = false
  end.

(** The first code unit of the text of a value. *)
Definition valueStart (c : codeunit) : bool :=
  (c =? 34) || (c =? 91) || (c =? 123) || (c =? 110) || (c =? 116) || (c =? 102)
  || ((45 <=? c) && (c <=? 57)).

(** The nesting of arrays and objects. *)
Fixpoint depth (j : json) : nat :=
  match j with
  | JArray items => S (fold_right (fun i m => Nat.max (depth i) m) O items)
  | JObject members =>
      S (fold_right (fun kv m => Nat.max (depth (snd kv)) m) O members)
  | _ => O
  end.

(** The items of an array after the first bracket, [value] reading one. *)
Fixpoint parseElements (value : jsstring -> option (json * jsstring))
    (n : nat) (t : jsstring) : option (list json * jsstring) :=
  match n with
  | O => None
  | S n' =>
      match value t with
      | Some (v, t1) =>
          match skipWhitespace t1 with
          | c :: t2 =>
              if c =? 44 then
                option_map (fun p => (v :: fst p, snd p)) (parseElements value n' t2)
              else if c =? 93 then Some ([v], t2)
              else None
          | [] => None
          end
      | None => None
      end
  end.

(** The members of an object after the first brace. *)
Fixpoint parseMembers (value : jsstring -> option (json * jsstring))
    (n : nat) (t : jsstring) : option (list (jsstring * json) * jsstring) :=
  match n with
  | O => None
  | S n' =>
      match skipWhitespace t with
      | c0 :: t0 =>
          if c0 =? 34 then
            match parseChars t0 with
            | Some (k, t1) =>
                match skipWhitespace t1 with
                | c1 :: t2 =>
                    if c1 =? 58 then
                      match value t2 with
                      | Some (v, t3) =>
                          match skipWhitespace t3 with
                          | c :: t4 =>
                              if c =? 44 then
                                option_map (fun p => ((k, v) :: fst p, snd p))
                                           (parseMembers value n' t4)
                              else if c =? 125 then Some ([(k, v)], t4)
                              else None
                          | [] => None
                          end
                      | None => None
                      end
                    else None
                | [] => None
                end
            | None => None
            end
          else None
      | [] => None
      end
  end.

Definition startsEmpty (close : codeunit) (s : jsstring) : option jsstring :=
  match skipWhitespace s with
  | c :: t => if c =? close then Some t else None
  | [] => None
  end.

Fixpoint parseValue (fuel : nat) (s : jsstring) : option (json * jsstring) :=
  match fuel with
  | O => None
  | S fuel' =>
      match skipWhitespace s with
      | [] => None
      | c :: rest =>
          if c =? 34 then
            option_map (fun p => (JString (fst p), snd p)) (parseChars rest)
          else if c =? 91 then
            match startsEmpty 93 rest with
            | Some t => Some (JArray [], t)
            | None => option_map (fun p => (JArray (fst p), snd p))
                        (parseElements (parseValue fuel') (S (List.length rest)) rest)
            end
          else if c =? 123 then
            match startsEmpty 125 rest with
            | Some t => Some (JObject [], t)
            | None => option_map (fun p => (JObject (fst p), snd p))
                        (parseMembers (parseValue fuel') (S (List.length rest)) rest)
            end
          else if startsWith (js "null") (c :: rest)
          then Some (JNull, skipn 4 (c :: rest))
          else if startsWith (js "true") (c :: rest)
          then Some (JBool true, skipn 4 (c :: rest))
          else if startsWith (js "false") (c :: rest)
          then Some (JBool false, skipn 5 (c :: rest))
          else option_map (fun p => (JNumber (fst p), snd p)) (parseInteger (c :: rest))
      end
  end.

(** [JSON.parse(text)] on the values of [json]; the members of an object
    are kept as they are written. *)
Definition JSON_parse (text : jsstring) : Result json :=
  match parseValue (S (List.length text)) text with
  | Some (v, rest) =>
      match skipWhitespace rest with
      | [] => Ok v
      | _ => Raise SyntaxError
      end
  | None => Raise SyntaxError
  end.

(** Modelled from the spec: [urlSafeParse] reads "a URL-safe-escaped JSON
    object"; this reader takes the text as JSON. *)
Definition urlSafeParse (text : jsstring) : Result json := JSON_parse text.

(** Without credentials a special URL is fetched as it is written. *)
Definition parseSpecialUrl (url : jsstring) : Result jsstring := Ok url.

Definition ex_a1 : json := JObject [(js "a", JNumber 1)].

(** A binding just constructed, on a tree of value [v] and a URL. *)
Definition world0 (v : json) (url : jsstring) : World Tree :=
  mkWorld (mkTree v 1) url None None None [].

(** The text of [ex_a1] percent-encoded once and twice. *)
Definition enc_a1 : jsstring := js "%7B%22a%22:1%7D".
Definition enc2_a1 : jsstring := js "%257B%2522a%2522:1%257D".

Definition update : M Tree unit := updateFromUrlHash urlSafeParse parseSpecialUrl.

(** The binding after a failed reading of the fragment ["#!x"]. *)
Definition world_failed : World Tree :=
  after update (world0 ex_a1 (js "http://h/p#!x")).

(** A binding whose cached pair is that of the tree. *)
Definition world_cached : World Tree :=
  mkWorld (mkTree ex_a1 1) (js "http://h/p?json_url=u#!x") (Some enc_a1) (Some 1%Z)
          None [].

(** A binding whose tree changed generation but not value. *)
Definition world_same_text : World Tree :=
  mkWorld (mkTree ex_a1 2) (js "http://h/p?json_url=u#!x") (Some enc_a1) (Some 1%Z)
          None [].

End Concrete.


(** ** Notions for the module-level functions *)

(** The code units [encodeFragment] may write: letters, digits, the
    reserved and mark characters it leaves, and ["%"]. *)
Definition fragmentSafe (c : codeunit) : bool :=
  isAlpha c || isDigit c || mem c (js "/?:@&=+$-_.~#%").

(** A code unit [encodeFragment] copies. *)
Definition fragmentPlain (c : codeunit) : bool :=
  encodeURI_unescaped c && negb (isExtraEscaped c).

(** Neither ["?"] nor ["&"] occurs. *)
Definition noMarks (s : jsstring) : bool := forallb (fun c => negb (isQueryMark c)) s.

(** [s] starts with a ["?"] or a ["&"], then [parameter] and ["="]: the
    start of both patterns of [removeParameterFromUrl]. *)
Definition startsParameter (parameter s : jsstring) : bool :=
  match s with
  | c :: s1 => isQueryMark c && startsWith (parameter ++ [61]) s1
  | [] => false
  end.

(** [parameter] occurs in [s] as the name of a parameter: after a ["?"]
    or a ["&"] and before a ["="]. *)
Fixpoint occurs (parameter s : jsstring) : bool :=
  match s with
  | c :: s1 =>
      (isQueryMark c && startsWith (parameter ++ [61]) s1) || occurs parameter s1
  | [] => false
  end.

(** The calls of a run that write the URL, and those that go to the tree. *)
Definition isReplaceState (c : Call) : bool :=
  match c with
  | CReplaceState _ => true
  | _ => false
  end.

Definition isTreeCall (c : Call) : bool :=
  match c with
  | CReset | CRestoreState _ => true
  | _ => false
  end.

(** A code unit of the value of a parameter as it stands in a URL:
    ASCII, and none of ["?"], ["&"] and the line terminators. *)
Definition inValue (c : codeunit) : bool :=
  (c <? 128) && negb (c =? 63) && negb (c =? 38) && negb (isLineTerminator c).

(** The part of a URL before its fragment. *)
Definition beforeHash (url : jsstring) : jsstring :=
  takeWhile (fun c => negb (c =? 35)) url.

(** ** Notions used to state the properties *)

Section Notions.

Context {T : Type} `{Trackable T}.

(** The value of the [redirect_fragment] parameter, if the URL has one. *)
Definition recovered (w : World T) : option jsstring :=
  params_get (js "redirect_fragment")
             (URLSearchParams (replace_upto_question (href w))).

(** The first statement of [setUrlHash] after the read of the tree: the
    replacement of the URL by itself without [json_url]. *)
Definition stripJsonUrl (w : World T) : World T :=
  let url := removeParameterFromUrl (href w) (js "json_url") in
  log (CReplaceState url) (set_href (resolveUrl (href w) url) w).

(** Whether recovery was used, and the string that is classified. *)
Definition fragmentRead (w : World T) : bool * jsstring :=
  match recovered w with
  | Some v => (true, 35 :: v)
  | None =>
      let s := replace_before_hash (href w) in
      (false,
       if str_eqb s [] || str_eqb s (js "#") || str_eqb s (js "#!")
       then js "#!{}" else s)
  end.

(** What the end of the [try] block and the [catch] block make of the
    completion of the chain of branches. *)
Definition settle (r : Completion unit * World T) : Completion unit * World T :=
  match r with
  | (Normal _, w) => (Normal tt, set_parseError None w)
  | (Throw e, w) => (Normal tt, set_parseError (Some e) w)
  | (Return, w) => (Return, w)
  end.

(** One percent-decoding, and a second one when recovery was used. *)
Definition decodePayload (found : bool) (payload : jsstring) : Result jsstring :=
  rbind (decodeURIComponent payload)
        (fun s => if found then decodeURIComponent s else Ok s).

(** The standard branch once it has recorded the string and reset the tree. *)
Definition recordedAndReset (p : jsstring) (w : World T) : World T :=
  log CReset (set_root (reset (root w)) (set_prevStateString (Some p) w)).


End Notions.

(** * Facts about the built-ins *)

Ltac Zify.zify_post_hook ::= Z.to_euclidean_division_equations.

(** Boolean tests on numbers, read as propositions. *)
Ltac nprop :=
  repeat match goal with
  | H : andb _ _ = true |- _ => apply andb_true_iff in H; destruct H
  | H : orb _ _ = false |- _ => apply orb_false_iff in H; destruct H
  | H : negb _ = true |- _ => apply negb_true_iff in H
  | H : negb _ = false |- _ => apply negb_false_iff in H
  | H : N.leb _ _ = true |- _ => apply N.leb_le in H
  | H : N.leb _ _ = false |- _ => apply N.leb_gt in H
  | H : N.ltb _ _ = true |- _ => apply N.ltb_lt in H
  | H : N.ltb _ _ = false |- _ => apply N.ltb_ge in H
  | H : N.eqb _ _ = true |- _ => apply N.eqb_eq in H
  | H : N.eqb _ _ = false |- _ => apply N.eqb_neq in H
  end.

(** Decide the tests of the goal by arithmetic. *)
Ltac ntest :=
  repeat match goal with
  | |- context [N.ltb ?a ?b] =>
      first [ replace (N.ltb a b) with true by (symmetry; apply N.ltb_lt; lia)
            | replace (N.ltb a b) with false by (symmetry; apply N.ltb_ge; lia) ]
  | |- context [N.leb ?a ?b] =>
      first [ replace (N.leb a b) with true by (symmetry; apply N.leb_le; lia)
            | replace (N.leb a b) with false by (symmetry; apply N.leb_gt; lia) ]
  | |- context [N.eqb ?a ?b] =>
      first [ replace (N.eqb a b) with true by (symmetry; apply N.eqb_eq; lia)
            | replace (N.eqb a b) with false by (symmetry; apply N.eqb_neq; lia) ]
  end.

Section StringFacts.

Lemma str_eqb_eq (a b : jsstring) : str_eqb a b = true <-> a = b.
Proof.
  revert b; induction a as [|x a IH]; intros [|y b]; simpl; split;
    try congruence; try reflexivity.
  - intros E. apply andb_true_iff in E as [E1 E2].
    apply N.eqb_eq in E1. apply IH in E2. congruence.
  - intros E. injection E as -> ->. rewrite N.eqb_refl. simpl. now apply IH.
Qed.

Lemma str_eqb_refl (a : jsstring) : str_eqb a a = true.
Proof. now apply str_eqb_eq. Qed.

Lemma str_eqb_neq (a b : jsstring) : str_eqb a b = false <-> a <> b.
Proof.
  split.
  - intros E ->. rewrite str_eqb_refl in E. discriminate.
  - intros N. destruct (str_eqb a b) eqn:E; [|reflexivity].
    apply str_eqb_eq in E. contradiction.
Qed.

Lemma startsWith_app (p s : jsstring) : startsWith p (p ++ s) = true.
Proof.
  induction p as [|x p IH]; simpl; [reflexivity|].
  now rewrite N.eqb_refl.
Qed.

Lemma startsWith_app_l (p q s : jsstring) :
  startsWith (p ++ q) s = true -> startsWith p s = true.
Proof.
  revert s; induction p as [|x p IH]; intros s; [reflexivity|].
  destruct s as [|y s]; cbn [app startsWith]; [discriminate|].
  intros E. apply andb_true_iff in E as [E1 E2].
  rewrite E1. cbn [andb]. now apply IH.
Qed.

Lemma startsWith_inv (p s : jsstring) :
  startsWith p s = true -> s = p ++ skipn (List.length p) s.
Proof.
  revert s; induction p as [|x p IH]; intros s; [reflexivity|].
  destruct s as [|y s]; cbn [app startsWith List.length skipn]; [discriminate|].
  intros E. apply andb_true_iff in E as [E1 E2].
  apply N.eqb_eq in E1. subst y. f_equal. now apply IH.
Qed.

Lemma skipn_app_length (p s : jsstring) : skipn (List.length p) (p ++ s) = s.
Proof. induction p; simpl; auto. Qed.

Lemma dropWhile_takeWhile (p : codeunit -> bool) (a b : jsstring) (c : codeunit) :
  p c = false -> dropWhile p (takeWhile p a ++ c :: b) = c :: b.
Proof.
  intros Hc. induction a as [|x a IH]; simpl.
  - now rewrite Hc.
  - destruct (p x) eqn:E; simpl.
    + now rewrite E.
    + now rewrite Hc.
Qed.

End StringFacts.

Section UriFacts.

Local Opaque N.div N.modulo N.mul N.add N.sub.

Lemma hexValue_hexUpper (d : N) : d < 16 -> hexValue (hexUpper d) = Some d.
Proof.
  intros Hd. unfold hexUpper, hexValue, isDigit.
  destruct (N.ltb_spec d 10).
  - ntest. simpl. f_equal. lia.
  - ntest. simpl. f_equal. lia.
Qed.

Lemma tokens_pct (b : N) (r : jsstring) :
  b < 256 -> tokens (pct b ++ r) = rmap (cons (Oct b)) (tokens r).
Proof.
  intros Hb. unfold pct. cbn [app tokens].
  change (37 =? 37) with true. cbv iota.
  rewrite !hexValue_hexUpper by lia.
  replace (16 * (b / 16) + b mod 16) with b by lia.
  reflexivity.
Qed.

Lemma tokens_flat_pct (bs : list N) (r : jsstring) :
  Forall (fun b => b < 256) bs ->
  tokens (flat_map pct bs ++ r) = rmap (app (map Oct bs)) (tokens r).
Proof.
  induction 1 as [|b bs Hb _ IH]; cbn [flat_map map].
  - cbn [app]. destruct (tokens r); reflexivity.
  - rewrite <- app_assoc, tokens_pct by assumption.
    rewrite IH. destruct (tokens r); reflexivity.
Qed.

Lemma tokens_lit (c : codeunit) (r : jsstring) :
  c <> 37 -> tokens (c :: r) = rmap (cons (Lit c)) (tokens r).
Proof.
  intros Hc. cbn [tokens]. apply N.eqb_neq in Hc. now rewrite Hc.
Qed.

Lemma utf8_octets (cp : N) : cp < 2097152 -> Forall (fun b => b < 256) (utf8 cp).
Proof.
  intros Hcp. unfold utf8.
  destruct (N.ltb_spec cp 128); [|destruct (N.ltb_spec cp 2048);
    [|destruct (N.ltb_spec cp 65536)]];
  repeat constructor; lia.
Qed.

Lemma decodeTokens_utf8 (cp : N) (r : list token) :
  scalar cp ->
  decodeTokens (map Oct (utf8 cp) ++ r) = rmap (app (utf16 cp)) (decodeTokens r).
Proof.
  intros [Hmax Hsur]. unfold utf8.
  destruct (N.ltb_spec cp 128); [|destruct (N.ltb_spec cp 2048);
    [|destruct (N.ltb_spec cp 65536)]]; cbn [map app decodeTokens].
  - ntest. unfold utf16. ntest. reflexivity.
  - unfold isCont. ntest. cbn [andb].
    replace ((192 + cp / 64 - 192) * 64 + (128 + cp mod 64 - 128)) with cp by lia.
    reflexivity.
  - unfold isCont. ntest. cbn [andb].
    replace ((224 + cp / 4096 - 224) * 4096 + (128 + (cp / 64) mod 64 - 128) * 64
             + (128 + cp mod 64 - 128)) with cp by lia.
    ntest. cbn [andb negb].
    destruct (N.leb_spec 55296 cp); destruct (N.leb_spec cp 57343);
      cbn [andb negb]; try reflexivity; lia.
  - unfold isCont. ntest. cbn [andb].
    replace ((240 + cp / 262144 - 240) * 262144
             + (128 + (cp / 4096) mod 64 - 128) * 4096
             + (128 + (cp / 64) mod 64 - 128) * 64
             + (128 + cp mod 64 - 128)) with cp by lia.
    ntest. reflexivity.
Qed.

End UriFacts.

Section RoundTrip.

Local Opaque N.div N.modulo N.mul N.add N.sub.

Lemma decodeURIComponent_lit (c : codeunit) (r : jsstring) :
  c <> 37 -> decodeURIComponent (c :: r) = rmap (cons c) (decodeURIComponent r).
Proof.
  intros Hc. unfold decodeURIComponent. rewrite tokens_lit by assumption.
  destruct (tokens r) as [ts|e]; cbn [rmap rbind]; [|reflexivity].
  cbn [decodeTokens]. reflexivity.
Qed.

Lemma decodeURIComponent_pct_utf8 (cp : N) (r : jsstring) :
  scalar cp ->
  decodeURIComponent (pct_utf8 cp ++ r) = rmap (app (utf16 cp)) (decodeURIComponent r).
Proof.
  intros Hcp. unfold decodeURIComponent, pct_utf8.
  rewrite tokens_flat_pct by (apply utf8_octets; destruct Hcp; lia).
  destruct (tokens r) as [ts|e]; cbn [rmap rbind]; [|reflexivity].
  now rewrite decodeTokens_utf8.
Qed.

Lemma unescaped_ascii (c : codeunit) :
  encodeURI_unescaped c = true -> c < 128 /\ c <> 37.
Proof.
  unfold encodeURI_unescaped, uriUnescaped, isAlpha, isDigit, mem.
  cbn [existsb uriReserved uriMark js list_ascii_of_string map].
  intros H. repeat (apply orb_true_iff in H; destruct H as [H|H]);
    nprop; try discriminate; cbn in *; lia.
Qed.

Lemma extra_cases (c : codeunit) :
  isExtraEscaped c = true ->
  c = 33 \/ c = 39 \/ c = 40 \/ c = 41 \/ c = 42 \/ c = 59 \/ c = 44.
Proof.
  unfold isExtraEscaped, mem.
  cbn [existsb js list_ascii_of_string map].
  intros H. repeat (apply orb_true_iff in H; destruct H as [H|H]);
    nprop; try discriminate; cbn in *; lia.
Qed.

(** The replacement function of [encodeFragment] writes the same ["%XX"]
    as [encodeURI] would. *)
Lemma extra_escape (c : codeunit) :
  isExtraEscaped c = true -> [37] ++ toUpperCase (toString16 c) = pct c.
Proof.
  intros H. apply extra_cases in H.
  repeat (destruct H as [H|H]; [subst c; vm_compute; reflexivity|]).
  subst c. vm_compute. reflexivity.
Qed.

Lemma hexUpper_not_extra (d : N) : d < 16 -> isExtraEscaped (hexUpper d) = false.
Proof.
  intros Hd. destruct (isExtraEscaped (hexUpper d)) eqn:E; [|reflexivity].
  apply extra_cases in E. unfold hexUpper in E.
  destruct (N.ltb_spec d 10); lia.
Qed.

Lemma escapeExtra_app (a b : jsstring) :
  escapeExtra (a ++ b) = escapeExtra a ++ escapeExtra b.
Proof. apply flat_map_app. Qed.

Lemma escapeExtra_pct (bs : list N) :
  Forall (fun b => b < 256) bs -> escapeExtra (flat_map pct bs) = flat_map pct bs.
Proof.
  induction 1 as [|b bs Hb _ IH]; [reflexivity|].
  cbn [flat_map]. rewrite escapeExtra_app, IH. f_equal.
  unfold escapeExtra, replaceEach, pct. cbn [flat_map].
  rewrite !hexUpper_not_extra by lia.
  reflexivity.
Qed.

Lemma pair_scalar (c c2 : codeunit) :
  isLeadSurrogate c = true -> isTrailSurrogate c2 = true ->
  scalar (pairCodePoint c c2) /\ utf16 (pairCodePoint c c2) = [c; c2].
Proof.
  unfold isLeadSurrogate, isTrailSurrogate, scalar, pairCodePoint, utf16.
  intros H1 H2. nprop. split; [lia|].
  ntest. f_equal; [lia|]. f_equal. lia.
Qed.

Lemma pct_utf8_ascii (c : N) : c < 128 -> pct_utf8 c = pct c.
Proof.
  intros Hc. unfold pct_utf8, utf8. ntest. cbn [flat_map]. apply app_nil_r.
Qed.

Lemma utf16_bmp (c : N) : c < 65536 -> utf16 c = [c].
Proof. intros Hc. unfold utf16. ntest. reflexivity. Qed.

(** Decoding what [encodeFragment] wrote gives the string back. *)
Lemma decode_encodeFragment_aux (n : nat) :
  forall s : jsstring, (List.length s <= n)%nat -> well_formed s = true ->
  exists enc, encodeURI s = Ok enc /\ decodeURIComponent (escapeExtra enc) = Ok s.
Proof.
  induction n as [|n IH]; intros s Hlen Hwf.
  - destruct s; [|cbn in Hlen; lia]. exists []. split; reflexivity.
  - destruct s as [|c rest]; [exists []; split; reflexivity|].
    cbn [List.length] in Hlen. unfold encodeURI in *.
    cbn [well_formed] in Hwf. cbn [Encode].
    destruct (encodeURI_unescaped c) eqn:Eu.
    + (* copied, or escaped by the replacement *)
      destruct (unescaped_ascii c Eu) as [Hc Hc37].
      assert (Hs : isLeadSurrogate c = false /\ isTrailSurrogate c = false).
      { unfold isLeadSurrogate, isTrailSurrogate. ntest. split; reflexivity. }
      destruct Hs as [Hl Ht]. rewrite Hl, Ht in Hwf. nprop.
      destruct (IH rest) as [enc [E1 E2]]; [lia|assumption|].
      rewrite E1. exists (c :: enc). split; [reflexivity|].
      change (c :: enc) with ([c] ++ enc). rewrite escapeExtra_app.
      unfold escapeExtra at 1, replaceEach. cbn [flat_map].
      destruct (isExtraEscaped c) eqn:Ex.
      * rewrite extra_escape by assumption. rewrite app_nil_r.
        rewrite <- pct_utf8_ascii by assumption.
        rewrite decodeURIComponent_pct_utf8 by (unfold scalar; lia).
        rewrite E2, utf16_bmp by lia. reflexivity.
      * cbn [app]. rewrite decodeURIComponent_lit by assumption.
        rewrite E2. reflexivity.
    + destruct (isLeadSurrogate c) eqn:El.
      * (* a surrogate pair *)
        assert (Ht : isTrailSurrogate c = false).
        { unfold isLeadSurrogate, isTrailSurrogate in *. nprop. ntest. reflexivity. }
        rewrite Ht. destruct rest as [|c2 rest']; [discriminate|].
        apply andb_true_iff in Hwf as [Hc2 Hwf]. rewrite Hc2.
        cbn [List.length] in Hlen.
        destruct (IH rest') as [enc [E1 E2]]; [lia|assumption|].
        rewrite E1. cbn [rmap rbind].
        destruct (pair_scalar c c2 El Hc2) as [Hsc H16].
        exists (pct_utf8 (pairCodePoint c c2) ++ enc). split; [reflexivity|].
        rewrite escapeExtra_app. unfold pct_utf8 at 1.
        rewrite escapeExtra_pct by (apply utf8_octets; destruct Hsc; lia).
        fold (pct_utf8 (pairCodePoint c c2)).
        rewrite decodeURIComponent_pct_utf8 by assumption.
        rewrite E2, H16. reflexivity.
      * destruct (isTrailSurrogate c) eqn:Et; [discriminate|].
        apply andb_true_iff in Hwf as [Hc Hwf]. nprop.
        destruct (IH rest) as [enc [E1 E2]]; [lia|assumption|].
        rewrite E1. cbn [rmap rbind].
        assert (Hsc : scalar c).
        { unfold isLeadSurrogate, isTrailSurrogate, scalar in *.
          split; [lia|]. intros [Ha Hb].
          destruct (N.leb_spec c 56319).
          - replace (55296 <=? c) with true in El by (symmetry; apply N.leb_le; lia).
            replace (c <=? 56319) with true in El by (symmetry; apply N.leb_le; lia).
            discriminate.
          - replace (56320 <=? c) with true in Et by (symmetry; apply N.leb_le; lia).
            replace (c <=? 57343) with true in Et by (symmetry; apply N.leb_le; lia).
            discriminate. }
        exists (pct_utf8 c ++ enc). split; [reflexivity|].
        rewrite escapeExtra_app. unfold pct_utf8 at 1.
        rewrite escapeExtra_pct by (apply utf8_octets; lia).
        fold (pct_utf8 c).
        rewrite decodeURIComponent_pct_utf8 by assumption.
        rewrite E2, utf16_bmp by lia. reflexivity.
Qed.

Lemma decode_encodeFragment (s : jsstring) :
  well_formed s = true ->
  exists enc, encodeFragment s = Ok enc /\ decodeURIComponent enc = Ok s.
Proof.
  intros Hwf.
  destruct (decode_encodeFragment_aux (List.length s) s (le_n _) Hwf) as [enc [E1 E2]].
  exists (escapeExtra enc). unfold encodeFragment. rewrite E1. split; [reflexivity|assumption].
Qed.

End RoundTrip.

(** * The text of a value has no unpaired surrogate *)

Section JsonFacts.

Local Opaque N.div N.modulo N.mul N.add N.sub.

(** Induction on a value, with the hypothesis for every item or member. *)
Lemma json_nested_ind (P : json -> Prop) :
  P JNull ->
  (forall b, P (JBool b)) ->
  (forall z, P (JNumber z)) ->
  (forall s, P (JString s)) ->
  (forall items, Forall P items -> P (JArray items)) ->
  (forall members, Forall (fun kv => P (snd kv)) members -> P (JObject members)) ->
  forall j, P j.
Proof.
  intros Hnull Hbool Hnum Hstr Harr Hobj.
  fix IH 1. intros [| b | z | s | items | members].
  - exact Hnull.
  - apply Hbool.
  - apply Hnum.
  - apply Hstr.
  - apply Harr. induction items as [|j items IHl]; constructor; [apply IH|exact IHl].
  - apply Hobj. induction members as [|[k j] members IHl]; constructor;
      [apply IH|exact IHl].
Qed.

Lemma well_formed_app_aux (n : nat) :
  forall a b : jsstring, (List.length a <= n)%nat ->
  well_formed a = true -> well_formed b = true -> well_formed (a ++ b) = true.
Proof.
  induction n as [|n IH]; intros a b Hlen Ha Hb.
  - destruct a; [exact Hb|cbn in Hlen; lia].
  - destruct a as [|c a]; [exact Hb|]. cbn [List.length] in Hlen.
    cbn [app well_formed] in *.
    destruct (isLeadSurrogate c).
    + destruct a as [|c2 a]; [discriminate|]. cbn [app List.length] in *.
      apply andb_true_iff in Ha as [Hc2 Ha]. rewrite Hc2. cbn [andb].
      apply IH; [lia|assumption|assumption].
    + destruct (isTrailSurrogate c); [discriminate|].
      apply andb_true_iff in Ha as [Hc Ha]. rewrite Hc. cbn [andb].
      apply IH; [lia|assumption|assumption].
Qed.

Lemma well_formed_app (a b : jsstring) :
  well_formed a = true -> well_formed b = true -> well_formed (a ++ b) = true.
Proof. apply (well_formed_app_aux (List.length a)). apply le_n. Qed.

(** A string of code units below the surrogates is well formed. *)
Lemma well_formed_below (s : jsstring) :
  Forall (fun c => c < 55296) s -> well_formed s = true.
Proof.
  induction 1 as [|c s Hc _ IH]; [reflexivity|].
  cbn [well_formed]. unfold isLeadSurrogate, isTrailSurrogate.
  ntest. cbn [andb]. exact IH.
Qed.

Lemma js_below (str : string) : Forall (fun c => c < 55296) (js str).
Proof.
  unfold js. induction str as [|a str IH]; cbn [list_ascii_of_string map];
    constructor; [|exact IH].
  pose proof (N_ascii_bounded a). lia.
Qed.

Lemma js_well_formed (str : string) : well_formed (js str) = true.
Proof. apply well_formed_below, js_below. Qed.

Lemma digits_below (fuel : nat) (n : N) : Forall (fun c => c < 55296) (digits fuel n).
Proof.
  revert n; induction fuel as [|fuel IH]; intros n; [constructor|].
  cbn [digits]. apply Forall_app. split.
  - destruct (n <? 10); [constructor|apply IH].
  - repeat constructor. lia.
Qed.

Lemma numberToString_well_formed (z : Z) : well_formed (numberToString z) = true.
Proof.
  apply well_formed_below. destruct z as [|p|p]; cbn [numberToString].
  - apply js_below.
  - apply digits_below.
  - apply Forall_app. split; [repeat constructor; lia|apply digits_below].
Qed.

Lemma hexLower_below (d : N) : d < 16 -> hexLower d < 55296.
Proof. intros Hd. unfold hexLower. destruct (N.ltb_spec d 10); lia. Qed.

Lemma unicodeEscape_well_formed (c : codeunit) :
  c < 65536 -> well_formed (unicodeEscape c) = true.
Proof.
  intros Hc. apply well_formed_below. unfold unicodeEscape.
  repeat constructor; try lia; apply hexLower_below; lia.
Qed.

Lemma quoteChar_well_formed (c : codeunit) :
  c < 65536 -> isLeadSurrogate c = false -> isTrailSurrogate c = false ->
  well_formed (quoteChar c) = true.
Proof.
  intros Hc Hl Ht. unfold quoteChar.
  repeat match goal with
  | |- context [if ?b then _ else _] => destruct b eqn:?; [reflexivity|]
  end.
  destruct (c <? 32); [now apply unicodeEscape_well_formed|].
  cbn [well_formed]. rewrite Hl, Ht.
  replace (c <? 65536) with true by (symmetry; now apply N.ltb_lt). reflexivity.
Qed.

Lemma quoteBody_well_formed_aux (n : nat) :
  forall s : jsstring, (List.length s <= n)%nat -> codeUnits s = true ->
  well_formed (quoteBody s) = true.
Proof.
  induction n as [|n IH]; intros s Hlen Hs.
  - destruct s; [reflexivity|cbn in Hlen; lia].
  - destruct s as [|c rest]; [reflexivity|]. cbn [List.length] in Hlen.
    unfold codeUnits in Hs. cbn [forallb] in Hs.
    apply andb_true_iff in Hs as [Hc Hrest]. apply N.ltb_lt in Hc.
    assert (IHrest : well_formed (quoteBody rest) = true) by (apply IH; [lia|exact Hrest]).
    cbn [quoteBody]. destruct (isLeadSurrogate c) eqn:El.
    + destruct rest as [|c2 rest'].
      * now apply unicodeEscape_well_formed.
      * destruct (isTrailSurrogate c2) eqn:Et2.
        -- cbn [well_formed]. rewrite El, Et2. cbn [andb].
           cbn [forallb] in Hrest. apply andb_true_iff in Hrest as [_ Hrest'].
           cbn [List.length] in Hlen. apply IH; [lia|exact Hrest'].
        -- apply well_formed_app; [now apply unicodeEscape_well_formed|exact IHrest].
    + destruct (isTrailSurrogate c) eqn:Et.
      * apply well_formed_app; [now apply unicodeEscape_well_formed|exact IHrest].
      * apply well_formed_app; [now apply quoteChar_well_formed|exact IHrest].
Qed.

Lemma QuoteJSONString_well_formed (s : jsstring) :
  codeUnits s = true -> well_formed (QuoteJSONString s) = true.
Proof.
  intros Hs. unfold QuoteJSONString.
  apply well_formed_app; [reflexivity|].
  apply well_formed_app; [|reflexivity].
  now apply (quoteBody_well_formed_aux (List.length s)).
Qed.

Lemma joinComma_well_formed (parts : list jsstring) :
  Forall (fun p => well_formed p = true) parts -> well_formed (joinComma parts) = true.
Proof.
  induction 1 as [|p ps Hp Hps IH]; [reflexivity|].
  cbn [joinComma]. destruct ps as [|q ps]; [exact Hp|].
  apply well_formed_app; [exact Hp|].
  apply well_formed_app; [reflexivity|exact IH].
Qed.

(** [JSON.stringify] escapes every unpaired surrogate, so [encodeURI]
    accepts its result. *)
Lemma JSON_stringify_well_formed (j : json) :
  json_codeUnits j = true -> well_formed (JSON_stringify j) = true.
Proof.
  induction j as [| b | z | s | items IH | members IH] using json_nested_ind;
    intros Hj; cbn [JSON_stringify].
  - reflexivity.
  - destruct b; reflexivity.
  - apply numberToString_well_formed.
  - now apply QuoteJSONString_well_formed.
  - apply well_formed_app; [reflexivity|].
    apply well_formed_app; [|reflexivity].
    apply joinComma_well_formed. cbn [json_codeUnits] in Hj.
    induction IH as [|j items Hj1 _ IHl]; cbn [map]; constructor.
    + apply Hj1. cbn [forallb] in Hj. now apply andb_true_iff in Hj.
    + apply IHl. cbn [forallb] in Hj. now apply andb_true_iff in Hj.
  - apply well_formed_app; [reflexivity|].
    apply well_formed_app; [|reflexivity].
    apply joinComma_well_formed. cbn [json_codeUnits] in Hj.
    induction IH as [|[k j] members Hj1 _ IHl]; cbn [map]; constructor.
    + cbn [forallb fst snd] in *. apply andb_true_iff in Hj as [Hkj _].
      apply andb_true_iff in Hkj as [Hk Hv].
      apply well_formed_app; [now apply QuoteJSONString_well_formed|].
      apply well_formed_app; [reflexivity|now apply Hj1].
    + apply IHl. cbn [forallb] in Hj. now apply andb_true_iff in Hj.
Qed.

End JsonFacts.

(** * The concrete reader reads back what [JSON.stringify] writes *)

Section ReaderFacts.

Import Concrete.

Local Opaque N.div N.modulo N.mul N.add N.sub.

Lemma hexValue_hexLower (d : N) : d < 16 -> hexValue (hexLower d) = Some d.
Proof.
  intros Hd. unfold hexLower, hexValue, isDigit.
  destruct (N.ltb_spec d 10).
  - ntest. simpl. f_equal. lia.
  - ntest. simpl. f_equal. lia.
Qed.

Lemma parseChars_plain (c : codeunit) (t : jsstring) :
  c <> 34 -> c <> 92 -> 32 <= c ->
  parseChars (c :: t) = consChar c (parseChars t).
Proof.
  intros H34 H92 H32. cbn [parseChars]. ntest. reflexivity.
Qed.

Lemma parseChars_unicode (c : codeunit) (t : jsstring) :
  c < 65536 -> parseChars (unicodeEscape c ++ t) = consChar c (parseChars t).
Proof.
  intros Hc. unfold unicodeEscape. cbn [app parseChars].
  change (92 =? 34) with false. change (92 =? 92) with true.
  change (117 =? 34) with false. change (117 =? 92) with false.
  change (117 =? 47) with false. change (117 =? 98) with false.
  change (117 =? 102) with false. change (117 =? 110) with false.
  change (117 =? 114) with false. change (117 =? 116) with false.
  change (117 =? 117) with true. cbv iota.
  rewrite !hexValue_hexLower by lia.
  replace (4096 * (c / 4096) + 256 * ((c / 256) mod 16) + 16 * ((c / 16) mod 16)
           + c mod 16) with c by lia.
  reflexivity.
Qed.

Lemma parseChars_quoteChar (c : codeunit) (t : jsstring) :
  c < 65536 -> parseChars (quoteChar c ++ t) = consChar c (parseChars t).
Proof.
  intros Hc. unfold quoteChar.
  repeat match goal with
  | |- context [if N.eqb c ?k then _ else _] =>
      destruct (N.eqb_spec c k); [subst c; reflexivity|]
  end.
  destruct (N.ltb_spec c 32).
  - now apply parseChars_unicode.
  - cbn [app]. now apply parseChars_plain.
Qed.

Lemma parseChars_quoteBody_aux (n : nat) :
  forall (s rest : jsstring), (List.length s <= n)%nat -> codeUnits s = true ->
  parseChars (quoteBody s ++ 34 :: rest) = Some (s, rest).
Proof.
  induction n as [|n IH]; intros s rest Hlen Hs.
  - destruct s; [reflexivity|cbn in Hlen; lia].
  - destruct s as [|c s']; [reflexivity|]. cbn [List.length] in Hlen.
    unfold codeUnits in Hs. cbn [forallb] in Hs.
    apply andb_true_iff in Hs as [Hc Hs']. apply N.ltb_lt in Hc.
    assert (IHs : parseChars (quoteBody s' ++ 34 :: rest) = Some (s', rest))
      by (apply IH; [lia|exact Hs']).
    cbn [quoteBody]. destruct (isLeadSurrogate c) eqn:El.
    + destruct s' as [|c2 s''].
      * rewrite parseChars_unicode by assumption. reflexivity.
      * destruct (isTrailSurrogate c2) eqn:Et2.
        -- cbn [forallb] in Hs'. apply andb_true_iff in Hs' as [_ Hs''].
           cbn [List.length] in Hlen. cbn [app].
           unfold isLeadSurrogate, isTrailSurrogate in El, Et2. nprop.
           rewrite parseChars_plain by lia. rewrite parseChars_plain by lia.
           rewrite IH by (try lia; exact Hs''). reflexivity.
        -- rewrite <- app_assoc, parseChars_unicode by assumption.
           now rewrite IHs.
    + destruct (isTrailSurrogate c) eqn:Et.
      * rewrite <- app_assoc, parseChars_unicode by assumption. now rewrite IHs.
      * rewrite <- app_assoc, parseChars_quoteChar by assumption. now rewrite IHs.
Qed.

Lemma parseChars_QuoteJSONString (s rest : jsstring) :
  codeUnits s = true ->
  exists body, QuoteJSONString s ++ rest = 34 :: body
               /\ parseChars body = Some (s, rest).
Proof.
  intros Hs. exists (quoteBody s ++ 34 :: rest). split.
  - unfold QuoteJSONString. cbn [app]. now rewrite <- app_assoc.
  - now apply (parseChars_quoteBody_aux (List.length s)).
Qed.

(** *** Numbers *)

Lemma parseDigits_app (ds rest : jsstring) (acc : Z) :
  Forall (fun c => isDigit c = true) ds -> delimited rest ->
  parseDigits acc (ds ++ rest) = (digitsValue ds acc, rest).
Proof.
  intros Hds Hrest. revert acc.
  induction Hds as [|d ds Hd _ IH]; intros acc.
  - cbn [app digitsValue fold_left]. destruct rest as [|c rest]; [reflexivity|].
    cbn [parseDigits]. cbn [delimited] in Hrest. unfold continuesNumber in Hrest.
    apply orb_false_iff in Hrest as [_ Hc]. now rewrite Hc.
  - cbn [app parseDigits]. rewrite Hd. apply IH.
Qed.

Lemma digitsValue_app (a b : jsstring) (acc : Z) :
  digitsValue (a ++ b) acc = digitsValue b (digitsValue a acc).
Proof. apply fold_left_app. Qed.

Lemma digits_spec (fuel : nat) :
  forall n : N, n < 2 ^ N.of_nat fuel ->
  Forall (fun c => isDigit c = true) (digits fuel n)
  /\ digitsValue (digits fuel n) 0 = Z.of_N n
  /\ (0 < n -> exists d t, digits fuel n = d :: t /\ d <> 48).
Proof.
  induction fuel as [|fuel IH]; intros n Hn.
  - cbn in Hn. assert (n = 0) by lia. subst n. cbn [digits].
    repeat split; [constructor|]. intros H0. lia.
  - rewrite Nnat.Nat2N.inj_succ, N.pow_succ_r' in Hn.
    cbn [digits].
    assert (Hd : isDigit (48 + n mod 10) = true).
    { unfold isDigit. ntest. reflexivity. }
    destruct (N.ltb_spec n 10) as [Hlt|Hge].
    + cbn [app]. repeat split.
      * now repeat constructor.
      * cbn [digitsValue fold_left]. lia.
      * intros H0. exists (48 + n mod 10), []. split; [reflexivity|lia].
    + destruct (IH (n / 10)) as [Hall [Hval Hhead]]; [lia|].
      repeat split.
      * apply Forall_app. split; [exact Hall|now repeat constructor].
      * rewrite digitsValue_app, Hval. cbn [digitsValue fold_left]. lia.
      * intros _. destruct Hhead as [d [t [Hdt Hd48]]]; [lia|].
        exists d, (t ++ [48 + n mod 10]). rewrite Hdt. split; [reflexivity|exact Hd48].
Qed.

Lemma naturalToString_spec (p : positive) :
  exists d t, naturalToString (Npos p) = d :: t
              /\ d <> 48
              /\ Forall (fun c => isDigit c = true) (d :: t)
              /\ digitsValue (d :: t) 0 = Zpos p.
Proof.
  unfold naturalToString.
  destruct (digits_spec (S (N.to_nat (N.log2 (Npos p)))) (Npos p))
    as [Hall [Hval Hhead]].
  - rewrite Nnat.Nat2N.inj_succ, Nnat.N2Nat.id.
    apply N.log2_spec. reflexivity.
  - destruct Hhead as [d [t [Hdt Hd]]]; [reflexivity|].
    exists d, t. rewrite Hdt in *. repeat split; assumption.
Qed.

Lemma parseNatural_naturalToString (p : positive) (rest : jsstring) :
  delimited rest ->
  checkNumberEnd (parseNatural (naturalToString (Npos p) ++ rest))
  = Some (Zpos p, rest).
Proof.
  intros Hrest. destruct (naturalToString_spec p) as [d [t [-> [Hd [Hall Hval]]]]].
  cbn [app parseNatural]. apply N.eqb_neq in Hd. rewrite Hd.
  inversion Hall as [|? ? Hdig Ht]; subst. rewrite Hdig.
  change (d :: t ++ rest) with ((d :: t) ++ rest).
  rewrite parseDigits_app by assumption. rewrite Hval.
  cbn [checkNumberEnd]. destruct rest as [|c rest]; [reflexivity|].
  cbn [delimited] in Hrest. now rewrite Hrest.
Qed.

Lemma numberToString_head (z : Z) :
  exists c t, numberToString z = c :: t /\ 45 <= c <= 57.
Proof.
  destruct z as [|p|p]; cbn [numberToString].
  - exists 48, []. split; [reflexivity|lia].
  - destruct (naturalToString_spec p) as [d [t [-> [_ [Hall _]]]]].
    inversion Hall as [|? ? Hdig _]; subst. unfold isDigit in Hdig. nprop.
    exists d, t. split; [reflexivity|lia].
  - eexists 45, _. split; [reflexivity|lia].
Qed.

Lemma parseInteger_numberToString (z : Z) (rest : jsstring) :
  delimited rest -> parseInteger (numberToString z ++ rest) = Some (z, rest).
Proof.
  intros Hrest. destruct z as [|p|p]; cbn [numberToString].
  - cbn [js list_ascii_of_string map app parseInteger].
    change (N_of_ascii "0") with 48. change (48 =? 45) with false. cbv iota.
    cbn [parseNatural]. change (48 =? 48) with true. cbv iota.
    cbn [checkNumberEnd]. destruct rest as [|c rest]; [reflexivity|].
    cbn [delimited] in Hrest. now rewrite Hrest.
  - pose proof (parseNatural_naturalToString p rest Hrest) as E.
    destruct (naturalToString_spec p) as [d [t [Hdt [_ [Hall _]]]]].
    rewrite Hdt in *. inversion Hall as [|? ? Hdig _]; subst.
    cbn [app parseInteger]. cbn [app] in E.
    unfold isDigit in Hdig. nprop. ntest. exact E.
  - cbn [app parseInteger]. change (45 =? 45) with true. cbv iota.
    rewrite parseNatural_naturalToString by assumption. reflexivity.
Qed.

(** *** Values *)

Lemma valueStart_cases (c : codeunit) :
  valueStart c = true ->
  isWhitespace c = false /\ c <> 93 /\ c <> 125 /\ c <> 44 /\ 34 <= c.
Proof.
  unfold valueStart, isWhitespace. intros Hc.
  repeat (apply orb_true_iff in Hc; destruct Hc as [Hc|Hc]); nprop;
    try subst c; repeat split; try lia; try reflexivity; ntest; reflexivity.
Qed.

Lemma stringify_head (V : json) :
  exists c t, JSON_stringify V = c :: t /\ valueStart c = true.
Proof.
  destruct V as [| [|] | z | s | items | members]; cbn [JSON_stringify];
    try (eexists _, _; split; reflexivity).
  destruct (numberToString_head z) as [c [t [E Hc]]].
  exists c, t. split; [exact E|]. unfold valueStart.
  replace ((45 <=? c) && (c <=? 57)) with true by (symmetry; ntest; reflexivity).
  now rewrite !orb_true_r.
Qed.

Lemma skipWhitespace_start (c : codeunit) (t : jsstring) :
  isWhitespace c = false -> skipWhitespace (c :: t) = c :: t.
Proof. intros Hc. cbn [skipWhitespace]. now rewrite Hc. Qed.

Lemma delimited_mark (c : codeunit) (t : jsstring) :
  c = 44 \/ c = 93 \/ c = 125 -> delimited (c :: t).
Proof. intros [-> | [-> | ->]]; reflexivity. Qed.

Lemma joinComma_cons (p q : jsstring) (ps : list jsstring) :
  joinComma (p :: q :: ps) = p ++ [44] ++ joinComma (q :: ps).
Proof. reflexivity. Qed.

Lemma parseElements_stringify (value : jsstring -> option (json * jsstring))
    (items : list json) (rest : jsstring) :
  Forall (fun i => forall r, delimited r ->
                   value (JSON_stringify i ++ r) = Some (i, r)) items ->
  items <> [] ->
  forall n, (List.length items <= n)%nat ->
  parseElements value n (joinComma (map JSON_stringify items) ++ 93 :: rest)
  = Some (items, rest).
Proof.
  induction 1 as [|i items Hi Hitems IH]; intros Hne n Hn; [contradiction|].
  destruct n as [|n]; [cbn in Hn; lia|]. cbn [List.length] in Hn.
  cbn [map joinComma parseElements].
  destruct items as [|i2 items].
  - cbn [map]. rewrite Hi by (apply delimited_mark; auto).
    cbn [skipWhitespace]. change (isWhitespace 93) with false. cbv iota.
    reflexivity.
  - cbn [map]. cbn [map] in IH. rewrite <- !app_assoc. cbn [app].
    rewrite Hi by (apply delimited_mark; auto).
    cbn [skipWhitespace]. change (isWhitespace 44) with false. cbv iota.
    change (44 =? 44) with true. cbv iota.
    rewrite IH; [reflexivity|discriminate|cbn [List.length] in *; lia].
Qed.

Lemma parseMembers_stringify (value : jsstring -> option (json * jsstring))
    (members : list (jsstring * json)) (rest : jsstring) :
  Forall (fun kv => codeUnits (fst kv) = true
                    /\ forall r, delimited r ->
                       value (JSON_stringify (snd kv) ++ r) = Some (snd kv, r))
         members ->
  members <> [] ->
  forall n, (List.length members <= n)%nat ->
  parseMembers value n
    (joinComma (map (fun kv => QuoteJSONString (fst kv) ++ [58]
                               ++ JSON_stringify (snd kv)) members)
     ++ 125 :: rest)
  = Some (members, rest).
Proof.
  induction 1 as [|[k v] members [Hk Hv] Hmembers IH]; intros Hne n Hn;
    [contradiction|].
  destruct n as [|n]; [cbn in Hn; lia|]. cbn [List.length] in Hn.
  cbn [fst snd] in *. cbn [map fst snd].
  assert (Hone : forall tail,
            exists body,
              (QuoteJSONString k ++ [58] ++ JSON_stringify v) ++ tail = 34 :: body
              /\ parseChars body = Some (k, 58 :: JSON_stringify v ++ tail)).
  { intros tail.
    destruct (parseChars_QuoteJSONString k (58 :: JSON_stringify v ++ tail) Hk)
      as [body [E1 E2]].
    exists body. split; [|exact E2]. rewrite <- E1. now rewrite <- !app_assoc. }
  destruct members as [|kv2 members].
  - cbn [map joinComma].
    destruct (Hone (125 :: rest)) as [body [E1 E2]].
    rewrite E1. cbn [parseMembers skipWhitespace].
    change (isWhitespace 34) with false. cbv iota.
    change (34 =? 34) with true. cbv iota. rewrite E2.
    cbn [skipWhitespace]. change (isWhitespace 58) with false. cbv iota.
    change (58 =? 58) with true. cbv iota.
    rewrite Hv by (apply delimited_mark; auto).
    cbn [skipWhitespace]. change (isWhitespace 125) with false. cbv iota.
    reflexivity.
  - cbn [map] in *. rewrite joinComma_cons, <- (app_assoc _ _ (125 :: rest)).
    match goal with
    | |- parseMembers _ _ (_ ++ ?tail) = _ => destruct (Hone tail) as [body [E1 E2]]
    end.
    match goal with
    | |- parseMembers _ _ ?x = _ => replace x with (34 :: body) by (symmetry; exact E1)
    end. cbn [parseMembers skipWhitespace].
    change (isWhitespace 34) with false. cbv iota.
    change (34 =? 34) with true. cbv iota. rewrite E2.
    cbn [skipWhitespace]. change (isWhitespace 58) with false. cbv iota.
    change (58 =? 58) with true. cbv iota.
    rewrite <- app_assoc. cbn [app].
    rewrite Hv by (apply delimited_mark; auto).
    cbn [skipWhitespace]. change (isWhitespace 44) with false. cbv iota.
    change (44 =? 44) with true. cbv iota.
    rewrite IH; [reflexivity|discriminate|cbn [List.length] in *; lia].
Qed.

Lemma length_joinComma (parts : list jsstring) :
  Forall (fun p => p <> []) parts ->
  (List.length parts <= List.length (joinComma parts))%nat.
Proof.
  induction 1 as [|p ps Hp Hps IH]; [apply le_n|].
  destruct ps as [|q ps].
  - cbn [joinComma List.length]. destruct p; [contradiction|cbn; lia].
  - rewrite joinComma_cons, !length_app. cbn [List.length] in *.
    destruct p; [contradiction|cbn [List.length]; lia].
Qed.

Lemma stringify_nonempty (V : json) : JSON_stringify V <> [].
Proof. destruct (stringify_head V) as [c [t [E _]]]. rewrite E. discriminate. Qed.

(** The text of a value does not start with a closing bracket. *)
Lemma startsEmpty_start (close c : codeunit) (t : jsstring) :
  valueStart c = true -> close = 93 \/ close = 125 ->
  startsEmpty close (c :: t) = None.
Proof.
  intros Hc Hclose. destruct (valueStart_cases c Hc) as [Hw [H93 [H125 _]]].
  unfold startsEmpty. rewrite skipWhitespace_start by assumption.
  destruct Hclose as [-> | ->]; ntest; reflexivity.
Qed.

Lemma joinComma_head (c : codeunit) (t : jsstring) (ps : list jsstring)
    (rest : jsstring) :
  exists t', joinComma ((c :: t) :: ps) ++ rest = c :: t'.
Proof.
  destruct ps as [|q ps].
  - eexists. reflexivity.
  - rewrite joinComma_cons. eexists. reflexivity.
Qed.

Lemma items_count (items : list json) (rest : jsstring) :
  (List.length items
   <= S (List.length (joinComma (map JSON_stringify items) ++ rest)))%nat.
Proof.
  rewrite length_app.
  assert (Hn : Forall (fun p : jsstring => p <> []) (map JSON_stringify items)).
  { apply Forall_map. apply Forall_forall. intros V _. apply stringify_nonempty. }
  apply length_joinComma in Hn. rewrite length_map in Hn. lia.
Qed.

Lemma members_count (members : list (jsstring * json)) (rest : jsstring) :
  Nat.le (List.length members)
         (S (List.length
               (joinComma (map (fun kv => QuoteJSONString (fst kv) ++ [58]
                                          ++ JSON_stringify (snd kv)) members)
                ++ rest))).
Proof.
  rewrite length_app.
  assert (Hn : Forall (fun p : jsstring => p <> [])
                 (map (fun kv : jsstring * json =>
                         QuoteJSONString (fst kv) ++ [58] ++ JSON_stringify (snd kv))
                      members)).
  { apply Forall_map. apply Forall_forall. intros kv _. discriminate. }
  apply length_joinComma in Hn. rewrite length_map in Hn. lia.
Qed.

Lemma stringify_object_app (members : list (jsstring * json)) (rest : jsstring) :
  JSON_stringify (JObject members) ++ rest
  = 123 :: joinComma (map (fun kv => QuoteJSONString (fst kv) ++ [58]
                                     ++ JSON_stringify (snd kv)) members)
           ++ 125 :: rest.
Proof. cbn [JSON_stringify]. rewrite <- !app_assoc. reflexivity. Qed.

Lemma parseValue_stringify (V : json) :
  json_codeUnits V = true ->
  forall fuel rest, (depth V < fuel)%nat -> delimited rest ->
  parseValue fuel (JSON_stringify V ++ rest) = Some (V, rest).
Proof.
  induction V as [| b | z | s | items IH | members IH] using json_nested_ind;
    intros Hcu fuel rest Hfuel Hrest; (destruct fuel as [|fuel]; [lia|]).
  - reflexivity.
  - destruct b; reflexivity.
  - pose proof (parseInteger_numberToString z rest Hrest) as E.
    destruct (numberToString_head z) as [c [t [Ez Hc]]].
    cbn [JSON_stringify]. rewrite Ez in *. cbn [app] in *.
    cbn [parseValue]. rewrite skipWhitespace_start by (unfold isWhitespace; ntest; reflexivity).
    cbn [startsWith js list_ascii_of_string map].
    change (N_of_ascii "n") with 110. change (N_of_ascii "t") with 116.
    change (N_of_ascii "f") with 102.
    ntest. cbn [andb]. rewrite E. reflexivity.
  - destruct (parseChars_QuoteJSONString s rest Hcu) as [body [E1 E2]].
    cbn [JSON_stringify]. rewrite E1.
    cbn [parseValue skipWhitespace]. change (isWhitespace 34) with false. cbv iota.
    change (34 =? 34) with true. cbv iota. rewrite E2. reflexivity.
  - destruct items as [|i items]; [reflexivity|].
    cbn [JSON_stringify]. rewrite <- !app_assoc. cbn [app].
    cbn [parseValue skipWhitespace]. change (isWhitespace 91) with false. cbv iota.
    change (91 =? 34) with false. change (91 =? 91) with true. cbv iota.
    assert (Hse : startsEmpty 93 (joinComma (map JSON_stringify (i :: items))
                                  ++ 93 :: rest) = None).
    { cbn [map]. destruct (stringify_head i) as [c [t [Ei Hc]]]. rewrite Ei.
      destruct (joinComma_head c t (map JSON_stringify items) (93 :: rest)) as [t' ->].
      apply startsEmpty_start; auto. }
    rewrite Hse. rewrite parseElements_stringify; [reflexivity| |discriminate|apply items_count].
    cbn [json_codeUnits] in Hcu. cbn [depth] in Hfuel.
    apply PeanoNat.lt_S_n in Hfuel. revert IH Hcu Hfuel.
    generalize (i :: items) as l. intros l IH.
    induction IH as [|j l Hj _ IHl]; intros Hcu Hfuel; constructor.
    + intros r Hr. cbn [forallb] in Hcu. apply andb_true_iff in Hcu as [Hcj _].
      cbn [fold_right] in Hfuel. apply Hj; [exact Hcj|lia|exact Hr].
    + cbn [forallb] in Hcu. apply andb_true_iff in Hcu as [_ Hcl].
      cbn [fold_right] in Hfuel. apply IHl; [exact Hcl|lia].
  - destruct members as [|kv members]; [reflexivity|].
    rewrite stringify_object_app.
    cbn [parseValue skipWhitespace]. change (isWhitespace 123) with false. cbv iota.
    change (123 =? 34) with false. change (123 =? 91) with false.
    change (123 =? 123) with true. cbv iota.
    assert (Hse : startsEmpty 125
              (joinComma (map (fun kv => QuoteJSONString (fst kv) ++ [58]
                                         ++ JSON_stringify (snd kv)) (kv :: members))
               ++ 125 :: rest) = None).
    { cbn [map].
      destruct (joinComma_head 34
                  ((quoteBody (fst kv) ++ [34]) ++ [58] ++ JSON_stringify (snd kv))
                  (map (fun kv => QuoteJSONString (fst kv) ++ [58]
                                  ++ JSON_stringify (snd kv)) members)
                  (125 :: rest)) as [t' Et].
      match goal with
      | |- startsEmpty _ ?x = _ => replace x with (34 :: t') by (symmetry; exact Et)
      end.
      apply startsEmpty_start; auto. }
    rewrite Hse. rewrite parseMembers_stringify; [reflexivity| |discriminate|apply members_count].
    cbn [json_codeUnits] in Hcu. cbn [depth] in Hfuel.
    apply PeanoNat.lt_S_n in Hfuel. revert IH Hcu Hfuel.
    generalize (kv :: members) as l. intros l IH.
    induction IH as [|[k j] l Hj _ IHl]; intros Hcu Hfuel; constructor.
    + cbn [forallb fst snd] in *. apply andb_true_iff in Hcu as [Hckj _].
      apply andb_true_iff in Hckj as [Hck Hcj]. split; [exact Hck|].
      intros r Hr. cbn [fold_right snd] in Hfuel. apply Hj; [exact Hcj|lia|exact Hr].
    + cbn [forallb] in Hcu. apply andb_true_iff in Hcu as [_ Hcl].
      cbn [fold_right] in Hfuel. apply IHl; [exact Hcl|lia].
Qed.

Lemma depth_length (V : json) : (depth V <= List.length (JSON_stringify V))%nat.
Proof.
  induction V as [| b | z | s | items IH | members IH] using json_nested_ind;
    cbn [depth]; try apply Nat.le_0_l.
  - cbn [JSON_stringify]. rewrite !length_app. cbn [List.length].
    induction IH as [|j l Hj _ IHl]; [cbn; lia|].
    cbn [fold_right map]. destruct l as [|j2 l].
    + cbn [joinComma map fold_right] in *. lia.
    + cbn [map] in *. rewrite joinComma_cons, !length_app. cbn [List.length] in *. lia.
  - cbn [JSON_stringify]. rewrite !length_app. cbn [List.length].
    induction IH as [|[k j] l Hj _ IHl]; [cbn; lia|].
    cbn [fold_right map snd fst] in *. destruct l as [|kv2 l].
    + cbn [joinComma map fold_right] in *. rewrite !length_app. lia.
    + cbn [map] in *. rewrite joinComma_cons, !length_app. cbn [List.length] in *. lia.
Qed.

(** [JSON.parse(JSON.stringify(V))] is [V]. *)
Lemma JSON_parse_stringify (V : json) :
  json_codeUnits V = true -> JSON_parse (JSON_stringify V) = Ok V.
Proof.
  intros Hcu. unfold JSON_parse.
  pose proof (parseValue_stringify V Hcu (S (List.length (JSON_stringify V))) []) as E.
  rewrite app_nil_r in E. rewrite E; [reflexivity| |exact I].
  pose proof (depth_length V). lia.
Qed.

End ReaderFacts.




(** * The binding *)

Section BindingFacts.

Context {T : Type} `{Trackable T}.
Variable urlSafeParse : jsstring -> Result json.
Variable parseSpecialUrl : jsstring -> Result jsstring.

Let update := updateFromUrlHash urlSafeParse parseSpecialUrl.

Lemma checkRedirectFragment_found (w : World T) (v : jsstring) :
  recovered w = Some v -> checkRedirectFragment w = (Normal (true, 35 :: v), w).
Proof.
  unfold recovered, checkRedirectFragment, bind, gets, params_has.
  intros E. rewrite E. reflexivity.
Qed.

Lemma checkRedirectFragment_none (w : World T) :
  recovered w = None -> checkRedirectFragment w = (Normal (false, []), w).
Proof.
  unfold recovered, checkRedirectFragment, bind, gets, params_has.
  intros E. rewrite E. reflexivity.
Qed.

Lemma update_settle (w : World T) :
  update w = settle (applyFragment urlSafeParse parseSpecialUrl
                       (fst (fragmentRead w)) (snd (fragmentRead w)) w).
Proof.
  unfold update, updateFromUrlHash, try_catch, updateFromUrlHash_try, bind at 1.
  unfold fragmentRead.
  destruct (recovered w) as [v|] eqn:E.
  - rewrite (checkRedirectFragment_found w v E). cbn [fst snd].
    unfold bind, effectiveFragment, ret, modify, settle. cbn [negb].
    destruct (applyFragment _ _ true (35 :: v) w) as [[u|e|] w1]; reflexivity.
  - rewrite (checkRedirectFragment_none w E). cbn [fst snd].
    unfold bind at 1. unfold effectiveFragment, bind at 1. cbn [negb gets].
    unfold modify, settle.
    destruct (str_eqb _ [] || _ || _); unfold ret, bind;
      match goal with
      | |- context [applyFragment ?a ?b ?c ?d ?e] =>
          destruct (applyFragment a b c d e) as [[u|err|] w1]
      end; reflexivity.
Qed.

(** *** The branches of the chain *)

Lemma applyFragment_malformed (found : bool) (s : jsstring) (w : World T) :
  matchRemote s = false -> startsWith (js "#!") s = false ->
  applyFragment urlSafeParse parseSpecialUrl found s w = (Throw MalformedFragment, w).
Proof.
  intros Hr Hs. unfold applyFragment. rewrite Hr.
  assert (Hl : startsWith (js "#!+") s = false).
  { destruct (startsWith (js "#!+") s) eqn:E; [|reflexivity].
    change (js "#!+") with (js "#!" ++ js "+") in E.
    apply startsWith_app_l in E. congruence. }
  rewrite Hl, Hs. reflexivity.
Qed.

Lemma decode_steps (found : bool) (payload : jsstring) (k : jsstring -> M T unit)
    (w : World T) :
  bind (lift (decodeURIComponent payload))
       (fun s => bind (if found then lift (decodeURIComponent s) else ret s) k) w
  = match decodePayload found payload with
    | Ok p => k p w
    | Raise e => (Throw e, w)
    end.
Proof.
  unfold decodePayload, lift. unfold bind, ret, throw.
  destruct (decodeURIComponent payload) as [s|e]; cbn [rbind]; [|reflexivity].
  destruct found; [|reflexivity].
  destruct (decodeURIComponent s); reflexivity.
Qed.

Lemma applyFragment_standard (found : bool) (s : jsstring) (w : World T) :
  matchRemote s = false -> startsWith (js "#!+") s = false ->
  startsWith (js "#!") s = true ->
  applyFragment urlSafeParse parseSpecialUrl found s w
  = match decodePayload found (slice 2 s) with
    | Raise e => (Throw e, w)
    | Ok p =>
        if opt_str_eqb (Some p) (prevStateString w) then (Return, w)
        else match urlSafeParse p with
             | Raise e => (Throw e, recordedAndReset p w)
             | Ok state =>
                 if isObject state
                 then root_restoreState state (recordedAndReset p w)
                 else (Throw NotAnObject, recordedAndReset p w)
             end
    end.
Proof.
  intros Hr Hl Hs. unfold applyFragment. rewrite Hr, Hl, Hs.
  cbv zeta. rewrite decode_steps.
  destruct (decodePayload found (slice 2 s)) as [p|e]; [|reflexivity].
  unfold root_reset, lift, verifyObject, recordedAndReset.
  unfold bind, gets, return_, ret, throw, modify.
  cbv beta iota zeta.
  destruct (opt_str_eqb (Some p) (prevStateString w)); [reflexivity|].
  cbv beta iota zeta.
  destruct (urlSafeParse p) as [state|e]; [|reflexivity].
  cbv beta iota zeta.
  destruct (isObject state); reflexivity.
Qed.

Lemma applyFragment_legacy (found : bool) (s : jsstring) (w : World T) :
  startsWith (js "#!+") s = true ->
  applyFragment urlSafeParse parseSpecialUrl found s w
  = match decodePayload found (slice 3 s) with
    | Raise e => (Throw e, w)
    | Ok p =>
        match urlSafeParse p with
        | Raise e => (Throw e, w)
        | Ok state =>
            if isObject state
            then match root_restoreState state w with
                 | (Normal _, w') => (Normal tt, set_prevStateString None w')
                 | other => other
                 end
            else (Throw NotAnObject, w)
        end
    end.
Proof.
  intros Hl. unfold applyFragment.
  assert (Hr : matchRemote s = false).
  { rewrite (startsWith_inv _ _ Hl). reflexivity. }
  rewrite Hr, Hl. cbv zeta. rewrite decode_steps.
  destruct (decodePayload found (slice 3 s)) as [p|e]; [|reflexivity].
  unfold lift, verifyObject. unfold bind, modify, ret, throw.
  destruct (urlSafeParse p) as [state|e]; [|reflexivity].
  cbv beta iota zeta.
  destruct (isObject state); [|reflexivity].
  cbv beta iota zeta.
  destruct (root_restoreState state w) as [[u|e|] w1]; reflexivity.
Qed.

Lemma generation_differs (w : World T) :
  prevStateGeneration w <> Some (changed_count (root w)) ->
  negb match prevStateGeneration w with
       | Some g => (changed_count (root w) =? g)%Z
       | None => false
       end = true.
Proof.
  intros Hg. destruct (prevStateGeneration w) as [g|]; [|reflexivity].
  destruct (Z.eqb_spec (changed_count (root w)) g); [|reflexivity].
  subst g. contradiction.
Qed.

Lemma setUrlHash_same_generation (w : World T) :
  prevStateGeneration w = Some (changed_count (root w)) ->
  setUrlHash w = (Normal tt, stripJsonUrl w).
Proof.
  intros Hg. unfold setUrlHash, bind, gets, history_replaceState, modify.
  cbn. rewrite Hg, Z.eqb_refl. reflexivity.
Qed.

Lemma setUrlHash_same_string (w : World T) (enc : jsstring) :
  prevStateGeneration w <> Some (changed_count (root w)) ->
  encodeFragment (JSON_stringify (toJSON (root w))) = Ok enc ->
  prevStateString w = Some enc ->
  setUrlHash w
  = (Normal tt,
     set_prevStateGeneration (Some (changed_count (root w))) (stripJsonUrl w)).
Proof.
  intros Hg He Hp.
  unfold setUrlHash, bind, gets, history_replaceState, modify.
  cbn. rewrite (generation_differs w Hg), He. cbn.
  rewrite Hp, str_eqb_refl. reflexivity.
Qed.

(** C4: with the cached generation equal to the tree's, [setUrlHash] does
    the [json_url] replacement and nothing else; with another generation
    and an encoding equal to the cached string, it does that replacement
    and assigns [prevStateGeneration], and nothing else: the URL is not
    written a second time and [prevStateString] stays. *)
Theorem setUrlHash_short_circuits (w : World T) :
  (prevStateGeneration w = Some (changed_count (root w)) ->
   setUrlHash w = (Normal tt, stripJsonUrl w))
  /\
  (forall enc,
     prevStateGeneration w <> Some (changed_count (root w)) ->
     encodeFragment (JSON_stringify (toJSON (root w))) = Ok enc ->
     prevStateString w = Some enc ->
     setUrlHash w
     = (Normal tt,
        set_prevStateGeneration (Some (changed_count (root w))) (stripJsonUrl w))).
Proof.
  split.
  - apply setUrlHash_same_generation.
  - intros enc. apply setUrlHash_same_string.
Qed.

(** *** The inbound reader *)

(** C9: when the decoded string of the standard form equals
    [prevStateString], [updateFromUrlHash] returns from inside the [try]
    block with the world as it was; the error cell keeps its value, an
    error of an earlier failed call included. *)
Theorem echo_keeps_parseError (w : World T) (p : jsstring) :
  matchRemote (snd (fragmentRead w)) = false ->
  startsWith (js "#!+") (snd (fragmentRead w)) = false ->
  startsWith (js "#!") (snd (fragmentRead w)) = true ->
  decodePayload (fst (fragmentRead w)) (slice 2 (snd (fragmentRead w))) = Ok p ->
  prevStateString w = Some p ->
  updateFromUrlHash urlSafeParse parseSpecialUrl w = (Return, w)
  /\ parseError (after (updateFromUrlHash urlSafeParse parseSpecialUrl) w)
     = parseError w.
Proof.
  intros Hr Hl Hs Hd Hp.
  assert (E : update w = (Return, w)).
  { rewrite update_settle, applyFragment_standard by assumption.
    rewrite Hd, Hp. cbn [opt_str_eqb]. rewrite str_eqb_refl. reflexivity. }
  split; [exact E|]. unfold after. fold update. now rewrite E.
Qed.


(** The standard form with a text that is not JSON, or not an object:
    the string is recorded and the tree reset before the failure. *)
Lemma standard_failure_after_reset (w : World T) (p : jsstring) (e : Error) :
  matchRemote (snd (fragmentRead w)) = false ->
  startsWith (js "#!+") (snd (fragmentRead w)) = false ->
  startsWith (js "#!") (snd (fragmentRead w)) = true ->
  decodePayload (fst (fragmentRead w)) (slice 2 (snd (fragmentRead w))) = Ok p ->
  prevStateString w <> Some p ->
  rbind (urlSafeParse p) verifyObject = Raise e ->
  update w = (Normal tt, set_parseError (Some e) (recordedAndReset p w)).
Proof.
  intros Hr Hl Hs Hd Hp He.
  rewrite update_settle, applyFragment_standard by assumption.
  rewrite Hd.
  assert (Hne : opt_str_eqb (Some p) (prevStateString w) = false).
  { destruct (prevStateString w) as [q|]; [|reflexivity]. cbn.
    apply str_eqb_neq. congruence. }
  rewrite Hne. unfold verifyObject in He.
  destruct (urlSafeParse p) as [state|e']; cbn [rbind] in He.
  - destruct (isObject state); [discriminate|]. injection He as <-. reflexivity.
  - injection He as <-. reflexivity.
Qed.

(** The failures that leave the tree alone: no branch, a failed
    percent-decoding, and any failure of the legacy form before
    [restoreState]. *)
Lemma malformed_leaves_tree (w : World T) :
  matchRemote (snd (fragmentRead w)) = false ->
  startsWith (js "#!") (snd (fragmentRead w)) = false ->
  update w = (Normal tt, set_parseError (Some MalformedFragment) w).
Proof.
  intros Hr Hs. rewrite update_settle, applyFragment_malformed by assumption.
  reflexivity.
Qed.

Lemma decode_failure_leaves_tree (w : World T) (e : Error) :
  matchRemote (snd (fragmentRead w)) = false ->
  startsWith (js "#!") (snd (fragmentRead w)) = true ->
  decodePayload (fst (fragmentRead w))
    (slice (if startsWith (js "#!+") (snd (fragmentRead w)) then 3 else 2)
           (snd (fragmentRead w))) = Raise e ->
  update w = (Normal tt, set_parseError (Some e) w).
Proof.
  intros Hr Hs Hd. rewrite update_settle.
  destruct (startsWith (js "#!+") (snd (fragmentRead w))) eqn:Hl.
  - rewrite applyFragment_legacy, Hd by assumption. reflexivity.
  - rewrite applyFragment_standard, Hd by assumption. reflexivity.
Qed.

(** The callback of the remote form checks the shape before it resets
    the tree. *)
Lemma remote_checks_before_reset (fetched : json) (w : World T) :
  isObject fetched = false ->
  remoteStateLoaded fetched w = (Throw NotAnObject, w).
Proof.
  intros Ho. unfold remoteStateLoaded, verifyObject. rewrite Ho. reflexivity.
Qed.

Lemma legacy_failure_leaves_tree (w : World T) (p : jsstring) (e : Error) :
  startsWith (js "#!+") (snd (fragmentRead w)) = true ->
  decodePayload (fst (fragmentRead w)) (slice 3 (snd (fragmentRead w))) = Ok p ->
  rbind (urlSafeParse p) verifyObject = Raise e ->
  update w = (Normal tt, set_parseError (Some e) w).
Proof.
  intros Hl Hd He. rewrite update_settle, applyFragment_legacy, Hd by assumption.
  unfold verifyObject in He.
  destruct (urlSafeParse p) as [state|e']; cbn [rbind] in He.
  - destruct (isObject state); [discriminate|]. injection He as <-. reflexivity.
  - injection He as <-. reflexivity.
Qed.

Lemma opt_str_eqb_neq (p : jsstring) (prev : option jsstring) :
  prev <> Some p -> opt_str_eqb (Some p) prev = false.
Proof.
  intros Hp. destruct prev as [q|]; [|reflexivity]. cbn.
  apply str_eqb_neq. congruence.
Qed.

Lemma calls_root_restoreState (state : json) (w : World T) :
  calls (snd (settle (root_restoreState state w))) = calls w ++ [CRestoreState state].
Proof.
  unfold root_restoreState.
  destruct (restoreState state (root w)) as [r [e|]]; reflexivity.
Qed.

(** The outbound cycle that reaches the write. *)
Lemma setUrlHash_writes (w : World T) (enc dec : jsstring) :
  prevStateGeneration w <> Some (changed_count (root w)) ->
  encodeFragment (JSON_stringify (toJSON (root w))) = Ok enc ->
  prevStateString w <> Some enc ->
  decodeURIComponent enc = Ok dec ->
  setUrlHash w
  = (Normal tt,
     let url := if str_eqb dec (js "{}") then js "#" else js "#!" ++ enc in
     log (CReplaceState url)
       (set_href (resolveUrl (href (stripJsonUrl w)) url)
          (set_prevStateString (Some enc)
             (set_prevStateGeneration (Some (changed_count (root w)))
                (stripJsonUrl w))))).
Proof.
  intros Hg He Hp Hd.
  unfold setUrlHash, bind, gets, history_replaceState, modify.
  cbn. rewrite (generation_differs w Hg), He. cbn.
  assert (Hne : negb match prevStateString w with
                     | Some y => str_eqb enc y
                     | None => false
                     end = true).
  { apply negb_true_iff. exact (opt_str_eqb_neq enc _ Hp). }
  rewrite Hne, Hd. cbn.
  destruct (str_eqb dec [123; 125]); reflexivity.
Qed.

(** C5: when [setUrlHash] writes the state [{}], the fragment it writes
    is ["#"]; and without a redirect fragment each of the fragments [''],
    ["#"] and ["#!"] is classified as ["#!{}"], so that the object handed
    to [restoreState] is what [urlSafeParse] reads in ["{}"], the empty
    object. *)
Theorem empty_canonicalization (w : World T) :
  (toJSON (root w) = JObject [] ->
   prevStateGeneration w <> Some (changed_count (root w)) ->
   prevStateString w <> Some (js "%7B%7D") ->
   setUrlHash w
   = (Normal tt,
      log (CReplaceState (js "#"))
        (set_href (resolveUrl (href (stripJsonUrl w)) (js "#"))
           (set_prevStateString (Some (js "%7B%7D"))
              (set_prevStateGeneration (Some (changed_count (root w)))
                 (stripJsonUrl w)))))
   /\ replace_before_hash (href (after setUrlHash w)) = js "#")
  /\
  (recovered w = None ->
   replace_before_hash (href w) = []
   \/ replace_before_hash (href w) = js "#"
   \/ replace_before_hash (href w) = js "#!" ->
   fragmentRead w = (false, js "#!{}")
   /\ (urlSafeParse (js "{}") = Ok (JObject []) ->
       prevStateString w <> Some (js "{}") ->
       calls (after (updateFromUrlHash urlSafeParse parseSpecialUrl) w)
       = calls w ++ [CReset; CRestoreState (JObject [])])).
Proof.
  split.
  - intros Hj Hg Hp.
    assert (E : setUrlHash w
      = (Normal tt,
         log (CReplaceState (js "#"))
           (set_href (resolveUrl (href (stripJsonUrl w)) (js "#"))
              (set_prevStateString (Some (js "%7B%7D"))
                 (set_prevStateGeneration (Some (changed_count (root w)))
                    (stripJsonUrl w)))))).
    { rewrite (setUrlHash_writes w (js "%7B%7D") (js "{}") Hg); try assumption;
        [reflexivity | now rewrite Hj | reflexivity]. }
    split; [exact E|]. unfold after. rewrite E.
    unfold log, set_href. cbn [snd href].
    change (js "#") with [35]. cbn [resolveUrl].
    unfold replace_before_hash. now rewrite dropWhile_takeWhile.
  - intros Hrec Hfrag.
    assert (E : fragmentRead w = (false, js "#!{}")).
    { unfold fragmentRead. rewrite Hrec.
      destruct Hfrag as [-> | [-> | ->]]; reflexivity. }
    split; [exact E|]. intros Hparse Hp. unfold after. fold update.
    rewrite update_settle, E. cbn [fst snd].
    rewrite applyFragment_standard by reflexivity.
    change (decodePayload false (slice 2 (js "#!{}"))) with (Ok (js "{}")).
    cbv iota. rewrite (opt_str_eqb_neq _ _ Hp), Hparse. cbn [isObject].
    rewrite calls_root_restoreState. cbn [recordedAndReset calls log].
    now rewrite <- app_assoc.
Qed.

Lemma slice_prefix (pre x : jsstring) : slice (List.length pre) (pre ++ x) = x.
Proof. apply skipn_app_length. Qed.

Lemma failure_of (p : jsstring) (err : Error) :
  rbind (urlSafeParse p) verifyObject = Raise err ->
  match urlSafeParse p with
  | Raise e => e = err
  | Ok state => isObject state = false /\ err = NotAnObject
  end.
Proof.
  unfold verifyObject. destruct (urlSafeParse p) as [state|e]; cbn [rbind].
  - destruct (isObject state); [discriminate|]. intros E. injection E as <-. now split.
  - intros E. now injection E.
Qed.

(** C7: [e] is the text [p] percent-encoded once and [d] is [p] encoded
    twice.  In the legacy and in the standard branch alike, [e] without
    recovery and [d] with recovery both hand to [restoreState] the object
    read in [p]; [d] without recovery is decoded once only, so the
    branch reads [e], and fails when [e] is not the text of an object. *)
Theorem conditional_double_decode (w : World T) (p e d : jsstring) (state : json) :
  decodeURIComponent e = Ok p ->
  decodeURIComponent d = Ok e ->
  urlSafeParse p = Ok state ->
  isObject state = true ->
  (let legacy found x :=
     applyFragment urlSafeParse parseSpecialUrl found (js "#!+" ++ x) w in
   let restored :=
     match root_restoreState state w with
     | (Normal _, w') => (Normal tt, set_prevStateString None w')
     | other => other
     end in
   legacy false e = restored
   /\ legacy true d = restored
   /\ forall err, rbind (urlSafeParse e) verifyObject = Raise err ->
                  legacy false d = (Throw err, w))
  /\
  (let standard found x :=
     applyFragment urlSafeParse parseSpecialUrl found (js "#!" ++ x) w in
   matchRemote (js "#!" ++ e) = false ->
   startsWith (js "#!+") (js "#!" ++ e) = false ->
   matchRemote (js "#!" ++ d) = false ->
   startsWith (js "#!+") (js "#!" ++ d) = false ->
   prevStateString w <> Some p ->
   prevStateString w <> Some e ->
   standard false e = root_restoreState state (recordedAndReset p w)
   /\ standard true d = root_restoreState state (recordedAndReset p w)
   /\ forall err, rbind (urlSafeParse e) verifyObject = Raise err ->
                  standard false d = (Throw err, recordedAndReset e w)).
Proof.
  intros He Hd Hp Ho.
  assert (D1 : decodePayload false e = Ok p).
  { unfold decodePayload. now rewrite He. }
  assert (D2 : decodePayload true d = Ok p).
  { unfold decodePayload. rewrite Hd. exact He. }
  assert (D3 : decodePayload false d = Ok e).
  { unfold decodePayload. now rewrite Hd. }
  split.
  - cbv zeta. repeat split.
    + rewrite applyFragment_legacy by apply startsWith_app.
      rewrite (slice_prefix (js "#!+")), D1, Hp, Ho. reflexivity.
    + rewrite applyFragment_legacy by apply startsWith_app.
      rewrite (slice_prefix (js "#!+")), D2, Hp, Ho. reflexivity.
    + intros err Herr. apply failure_of in Herr.
      rewrite applyFragment_legacy by apply startsWith_app.
      rewrite (slice_prefix (js "#!+")), D3.
      destruct (urlSafeParse e) as [st|e'].
      * destruct Herr as [-> ->]. reflexivity.
      * now subst.
  - cbv zeta. intros R1 L1 R2 L2 Hprev Hpreve. repeat split.
    + rewrite applyFragment_standard; try assumption; [|apply startsWith_app].
      rewrite (slice_prefix (js "#!")), D1, (opt_str_eqb_neq _ _ Hprev), Hp, Ho.
      reflexivity.
    + rewrite applyFragment_standard; try assumption; [|apply startsWith_app].
      rewrite (slice_prefix (js "#!")), D2, (opt_str_eqb_neq _ _ Hprev), Hp, Ho.
      reflexivity.
    + intros err Herr. apply failure_of in Herr.
      rewrite applyFragment_standard; try assumption; [|apply startsWith_app].
      rewrite (slice_prefix (js "#!")), D3, (opt_str_eqb_neq _ _ Hpreve).
      destruct (urlSafeParse e) as [st|e'].
      * destruct Herr as [-> ->]. reflexivity.
      * now subst.
Qed.

(** *** The cursor pair *)






(** *** A write followed by the reading of what was written *)

Lemma encode_brace (t enc : jsstring) :
  encodeFragment (123 :: t) = Ok enc -> exists enc', enc = 37 :: 55 :: 66 :: enc'.
Proof.
  unfold encodeFragment, encodeURI. cbn [Encode].
  change (encodeURI_unescaped 123) with false.
  change (isTrailSurrogate 123) with false.
  change (isLeadSurrogate 123) with false. cbv iota.
  change (pct_utf8 123) with [37; 55; 66].
  destruct (Encode encodeURI_unescaped t) as [r|e]; cbn [rmap rbind]; [|discriminate].
  intros E. injection E as <-. exists (escapeExtra r). reflexivity.
Qed.

(** The world after [setUrlHash] has written the text of an object, and
    what [updateFromUrlHash] then does with the fragment: the string it
    decodes is the JSON text, which is not the encoded string that
    [setUrlHash] recorded, so the tree is reset and the text parsed. *)
Lemma read_of_written (w : World T) (members : list (jsstring * json))
    (enc : jsstring) :
  let text := JSON_stringify (JObject members) in
  let w1 := after setUrlHash w in
  toJSON (root w) = JObject members ->
  encodeFragment text = Ok enc ->
  decodeURIComponent enc = Ok text ->
  prevStateGeneration w <> Some (changed_count (root w)) ->
  prevStateString w <> Some enc ->
  recovered w1 = None ->
  prevStateString w1 = Some enc
  /\ calls w1 = calls (stripJsonUrl w)
               ++ [CReplaceState (if str_eqb text (js "{}") then js "#"
                                  else js "#!" ++ enc)]
  /\ update w1
     = settle match urlSafeParse text with
              | Raise e => (Throw e, recordedAndReset text w1)
              | Ok state =>
                  if isObject state
                  then root_restoreState state (recordedAndReset text w1)
                  else (Throw NotAnObject, recordedAndReset text w1)
              end.
Proof.
  intros text w1 Hj He Hd Hg Hp.
  pose proof (setUrlHash_writes w enc text Hg) as Hw.
  rewrite Hj in Hw. specialize (Hw He Hp Hd).
  unfold w1, after. rewrite Hw. cbv zeta. cbn [snd]. clear Hw w1.
  set (url := if str_eqb text (js "{}") then js "#" else js "#!" ++ enc).
  set (w1 := log (CReplaceState url) _).
  intros Hrec. split; [reflexivity|]. split; [reflexivity|].
  destruct (encode_brace _ _ He) as [enc' Henc].
  (* the string classified, and its decoding *)
  assert (Hs : exists s, fragmentRead w1 = (false, s)
                         /\ matchRemote s = false
                         /\ startsWith (js "#!+") s = false
                         /\ startsWith (js "#!") s = true
                         /\ decodePayload false (slice 2 s) = Ok text).
  { unfold fragmentRead. rewrite Hrec.
    assert (Hh : replace_before_hash (href w1) = url).
    { unfold w1, log, set_href. cbn [href].
      assert (Hu : exists u, url = 35 :: u).
      { unfold url. destruct (str_eqb text (js "{}")); eexists; reflexivity. }
      destruct Hu as [u ->]. cbn [resolveUrl].
      unfold replace_before_hash. now rewrite dropWhile_takeWhile. }
    rewrite Hh. unfold url. destruct (str_eqb text (js "{}")) eqn:Et.
    - apply str_eqb_eq in Et. exists (js "#!{}"). rewrite Et. repeat split.
    - exists (js "#!" ++ enc).
      split; [now rewrite Henc|]. split; [now rewrite Henc|].
      split; [now rewrite Henc|]. split; [reflexivity|].
      change (slice 2 (js "#!" ++ enc)) with enc.
      unfold decodePayload. now rewrite Hd. }
  destruct Hs as [s [Hf [Hr [Hl [Hst Hdec]]]]].
  rewrite update_settle, Hf. cbn [fst snd].
  rewrite applyFragment_standard, Hdec by assumption.
  assert (Hne : opt_str_eqb (Some text) (prevStateString w1) = false).
  { unfold w1, log, set_href, set_prevStateString. cbn [prevStateString].
    rewrite Henc. reflexivity. }
  now rewrite Hne.
Qed.

(** After a write of the text of an object, the hash-change event makes
    [updateFromUrlHash] reset the tree: the echo test compares the decoded
    text with the encoded string, and these differ. *)
Lemma echo_not_taken (w : World T) (members : list (jsstring * json))
    (enc : jsstring) :
  toJSON (root w) = JObject members ->
  json_codeUnits (JObject members) = true ->
  encodeFragment (JSON_stringify (JObject members)) = Ok enc ->
  prevStateGeneration w <> Some (changed_count (root w)) ->
  prevStateString w <> Some enc ->
  recovered (after setUrlHash w) = None ->
  In CReset (calls (after update (after setUrlHash w))).
Proof.
  intros Hj Hwf He Hg Hp Hrec. apply JSON_stringify_well_formed in Hwf.
  destruct (decode_encodeFragment _ Hwf) as [enc0 [He0 Hd]].
  assert (enc0 = enc) by congruence. subst enc0.
  destruct (read_of_written w members enc Hj He Hd Hg Hp Hrec) as [_ [_ Hu]].
  unfold after at 1. rewrite Hu.
  destruct (urlSafeParse (JSON_stringify (JObject members))) as [state|e].
  - destruct (isObject state).
    + rewrite calls_root_restoreState. unfold recordedAndReset. cbn [calls log].
      apply in_or_app. left. apply in_or_app. right. now left.
    + cbn. apply in_or_app. right. now left.
  - cbn. apply in_or_app. right. now left.
Qed.

(** The outbound cycle does not throw. *)
Lemma setUrlHash_completes (w : World T) :
  json_codeUnits (toJSON (root w)) = true ->
  exists w', setUrlHash w = (Normal tt, w').
Proof.
  intros Hwf. apply JSON_stringify_well_formed in Hwf.
  destruct (decode_encodeFragment _ Hwf) as [enc [He Hd]].
  assert (Hgd : prevStateGeneration w = Some (changed_count (root w))
                \/ prevStateGeneration w <> Some (changed_count (root w))).
  { destruct (prevStateGeneration w) as [g|]; [|right; discriminate].
    destruct (Z.eq_dec g (changed_count (root w)));
      [left; congruence|right; congruence]. }
  assert (Hpd : prevStateString w = Some enc \/ prevStateString w <> Some enc).
  { destruct (prevStateString w) as [q|]; [|right; discriminate].
    destruct (list_eq_dec N.eq_dec q enc); [left; congruence|right; congruence]. }
  destruct Hgd as [Hg|Hg].
  - eexists. exact (setUrlHash_same_generation w Hg).
  - destruct Hpd as [Hp|Hp].
    + eexists. exact (setUrlHash_same_string w enc Hg He Hp).
    + eexists. exact (setUrlHash_writes w enc _ Hg He Hp Hd).
Qed.

(** The part of the round trip that holds.  A value whose JSON text
    [urlSafeParse] reads back comes back from the encoding: decoding
    [encodeFragment] of the text gives the text, so parsing the decoded
    string gives the value.  When [setUrlHash] has written an object and
    [checkRedirectFragment] finds no [redirect_fragment] in the written
    URL, [updateFromUrlHash] resets the tree and hands that object to
    [restoreState]. *)
Theorem encode_decode_round_trip (V : json) :
  json_codeUnits V = true ->
  json_safeIntegers V = true ->
  urlSafeParse (JSON_stringify V) = Ok V ->
  exists enc,
    encodeFragment (JSON_stringify V) = Ok enc
    /\ rbind (decodeURIComponent enc) urlSafeParse = Ok V
    /\ forall w : World T,
         toJSON (root w) = V ->
         isObject V = true ->
         prevStateGeneration w <> Some (changed_count (root w)) ->
         prevStateString w <> Some enc ->
         recovered (after setUrlHash w) = None ->
         calls (after (updateFromUrlHash urlSafeParse parseSpecialUrl)
                      (after setUrlHash w))
         = calls (after setUrlHash w) ++ [CReset; CRestoreState V].
Proof.
  intros Hwf _ Hparse. apply JSON_stringify_well_formed in Hwf.
  destruct (decode_encodeFragment _ Hwf) as [enc [He Hd]].
  exists enc. split; [exact He|]. split; [rewrite Hd; exact Hparse|].
  intros w Hj Ho Hg Hp Hrec.
  destruct V as [| | | | |members]; try discriminate.
  destruct (read_of_written w members enc Hj He Hd Hg Hp Hrec) as [_ [_ Hu]].
  unfold after at 1. fold update. rewrite Hu, Hparse. cbn [isObject].
  rewrite calls_root_restoreState. unfold recordedAndReset. cbn [calls log].
  now rewrite <- app_assoc.
Qed.

End BindingFacts.

(** * The properties on a concrete binding *)

Section Instances.

Import Concrete.

Lemma setUrlHash_short_circuits_witness :
  setUrlHash world_cached = (Normal tt, stripJsonUrl world_cached)
  /\ setUrlHash world_same_text
     = (Normal tt, set_prevStateGeneration (Some 2%Z) (stripJsonUrl world_same_text)).
Proof.
  split.
  - apply (proj1 (setUrlHash_short_circuits world_cached)). reflexivity.
  - change (Some 2%Z) with (Some (changed_count (root world_same_text))).
    apply (proj2 (setUrlHash_short_circuits world_same_text) enc_a1).
    + vm_compute. discriminate.
    + vm_compute. reflexivity.
    + reflexivity.
Defined.

Lemma empty_canonicalization_witness :
  replace_before_hash (href (after setUrlHash (world0 (JObject []) (js "http://h/p#!x"))))
  = js "#"
  /\ calls (after update (world0 ex_a1 (js "http://h/p#!")))
     = [CReset; CRestoreState (JObject [])].
Proof.
  split.
  - apply (proj1 (empty_canonicalization urlSafeParse parseSpecialUrl
                    (world0 (JObject []) (js "http://h/p#!x")))).
    + reflexivity.
    + vm_compute. discriminate.
    + vm_compute. discriminate.
  - apply (proj2 (empty_canonicalization urlSafeParse parseSpecialUrl
                    (world0 ex_a1 (js "http://h/p#!")))).
    + vm_compute. reflexivity.
    + right. right. vm_compute. reflexivity.
    + vm_compute. reflexivity.
    + vm_compute. discriminate.
Defined.

Lemma encode_decode_round_trip_witness :
  let w := world0 ex_a1 (js "http://h/p") in
  rbind (rbind (encodeFragment (JSON_stringify ex_a1)) decodeURIComponent) urlSafeParse
  = Ok ex_a1
  /\ calls (after update (after setUrlHash w))
     = calls (after setUrlHash w) ++ [CReset; CRestoreState ex_a1].
Proof.
  intros w.
  destruct (encode_decode_round_trip urlSafeParse parseSpecialUrl ex_a1)
    as [enc [He [Hd Hw]]].
  - vm_compute. reflexivity.
  - vm_compute. reflexivity.
  - vm_compute. reflexivity.
  - split.
    + rewrite He. exact Hd.
    + apply (Hw w).
      * reflexivity.
      * reflexivity.
      * vm_compute. discriminate.
      * vm_compute. discriminate.
      * vm_compute. reflexivity.
Defined.

Lemma conditional_double_decode_witness :
  let w := world0 (JObject []) (js "http://h/p") in
  let restored :=
    (Normal tt, mkWorld (mkTree ex_a1 2) (js "http://h/p") None None None
                        [CRestoreState ex_a1]) in
  let replaced :=
    (Normal tt, mkWorld (mkTree ex_a1 3) (js "http://h/p")
                        (Some (JSON_stringify ex_a1)) None None
                        [CReset; CRestoreState ex_a1]) in
  (applyFragment urlSafeParse parseSpecialUrl false (js "#!+" ++ enc_a1) w = restored
   /\ applyFragment urlSafeParse parseSpecialUrl true (js "#!+" ++ enc2_a1) w = restored
   /\ applyFragment urlSafeParse parseSpecialUrl false (js "#!+" ++ enc2_a1) w
      = (Throw SyntaxError, w))
  /\
  (applyFragment urlSafeParse parseSpecialUrl false (js "#!" ++ enc_a1) w = replaced
   /\ applyFragment urlSafeParse parseSpecialUrl true (js "#!" ++ enc2_a1) w = replaced
   /\ applyFragment urlSafeParse parseSpecialUrl false (js "#!" ++ enc2_a1) w
      = (Throw SyntaxError, recordedAndReset enc_a1 w)).
Proof.
  intros w restored replaced.
  destruct (conditional_double_decode urlSafeParse parseSpecialUrl w
              (JSON_stringify ex_a1) enc_a1 enc2_a1 ex_a1)
    as [[L1 [L2 L3]] S].
  - vm_compute. reflexivity.
  - vm_compute. reflexivity.
  - vm_compute. reflexivity.
  - reflexivity.
  - split.
    + split; [exact L1|]. split; [exact L2|]. apply L3. vm_compute. reflexivity.
    + destruct S as [S1 [S2 S3]].
      * vm_compute. reflexivity.
      * vm_compute. reflexivity.
      * vm_compute. reflexivity.
      * vm_compute. reflexivity.
      * vm_compute. discriminate.
      * vm_compute. discriminate.
      * split; [exact S1|]. split; [exact S2|]. apply S3. vm_compute. reflexivity.
Defined.

Lemma echo_keeps_parseError_witness :
  parseError world_failed = Some SyntaxError
  /\ update world_failed = (Return, world_failed)
  /\ parseError (after update world_failed) = parseError world_failed.
Proof.
  split; [vm_compute; reflexivity|].
  apply (echo_keeps_parseError urlSafeParse parseSpecialUrl world_failed (js "x"));
    vm_compute; reflexivity.
Defined.



(** With the concrete reader the round trip needs no hypothesis on the
    reader: every value of code units and safe integers comes back. *)
Lemma concrete_round_trip (V : json) :
  json_codeUnits V = true ->
  json_safeIntegers V = true ->
  exists enc,
    encodeFragment (JSON_stringify V) = Ok enc
    /\ rbind (decodeURIComponent enc) urlSafeParse = Ok V.
Proof.
  intros Hcu _.
  destruct (decode_encodeFragment _ (JSON_stringify_well_formed V Hcu)) as [enc [He Hd]].
  exists enc. split; [exact He|]. rewrite Hd. cbn [rbind].
  now apply JSON_parse_stringify.
Qed.


(** C1 at the state [{"a":1}]: [setUrlHash] writes
    ["#!%7B%22a%22:1%7D"] and records the encoded string; on the
    resulting event [updateFromUrlHash] compares the decoded text with
    it, finds them different, resets the tree and restores the state. *)
Theorem echo_after_write_resets_tree :
  let w1 := after setUrlHash (world0 ex_a1 (js "http://h/p")) in
  let w2 := after update w1 in
  href w1 = js "http://h/p#!%7B%22a%22:1%7D"
  /\ prevStateString w1 = Some enc_a1
  /\ calls w2 = calls w1 ++ [CReset; CRestoreState ex_a1]
  /\ prevStateString w2 = Some (JSON_stringify ex_a1)
  /\ root w2 <> root w1.
Proof.
  vm_compute. repeat split. discriminate.
Qed.

(** C2 at the fragment ["#!x"]: the text is not JSON; when the parse
    fails the tree has been reset already, and the error cell is set. *)
Theorem parse_failure_after_reset :
  let w := world0 ex_a1 (js "http://h/p#!x") in
  let w' := after update w in
  parseError w' = Some SyntaxError
  /\ calls w' = [CReset]
  /\ root w = mkTree ex_a1 1
  /\ root w' = mkTree (JObject []) 2
  /\ prevStateString w' = Some (js "x").
Proof.
  vm_compute. repeat split.
Qed.

(** C6 at the state [{"a":"?redirect_fragment=x"}].  The text comes back
    from its encoding, and [setUrlHash] writes it after ["#!"] with its
    ["?"] and ["="] as they are.  [checkRedirectFragment] then reads the
    fragment as a query: on the written URL, loaded by a new binding or
    read on a hash change, the string classified is ["#x"] and the two
    code units that end the text, no branch takes it, and the state is
    not restored: the tree is not called and the error cell is set. *)
Theorem round_trip_lost_in_query :
  let V := JObject [(js "a", JString (js "?redirect_fragment=x"))] in
  let w1 := after setUrlHash (world0 V (js "http://h/p")) in
  let loaded := world0 (JObject []) (href w1) in
  rbind (rbind (encodeFragment (JSON_stringify V)) decodeURIComponent) urlSafeParse
  = Ok V
  /\ href w1 = js "http://h/p#!%7B%22a%22:%22?redirect_fragment=x%22%7D"
  /\ fragmentRead loaded = (true, [35; 120; 34; 125])
  /\ update loaded = (Normal tt, set_parseError (Some MalformedFragment) loaded)
  /\ calls (after update w1) = calls w1
  /\ parseError (after update w1) = Some MalformedFragment.
Proof.
  vm_compute. repeat split.
Qed.

(** A state whose text holds ["?redirect_fragment="] is written to a URL
    that [checkRedirectFragment] takes for a redirect: the fragment read
    back is not the one written. *)
Lemma redirect_fragment_in_state :
  let V := JObject [(js "a", JString (js "?redirect_fragment=x"))] in
  let w1 := after setUrlHash (world0 V (js "http://h/p")) in
  recovered w1 = Some [120; 34; 125]
  /\ parseError (after update w1) = Some MalformedFragment.
Proof. vm_compute. split; reflexivity. Qed.

(** The fragment ["#not-a-bang-form"] sets the error cell and leaves the
    tree alone. *)
Lemma not_a_bang_form :
  let w := world0 ex_a1 (js "http://h/p#not-a-bang-form") in
  update w = (Normal tt, set_parseError (Some MalformedFragment) w).
Proof. vm_compute. reflexivity. Qed.

End Instances.


(** * More on [encodeFragment] *)

Section EncodeFacts.

Local Opaque N.div N.modulo N.mul N.add N.sub.

(** Induction on a string without unpaired surrogate: by code points. *)
Lemma well_formed_ind (P : jsstring -> Prop) :
  P [] ->
  (forall c rest,
     isLeadSurrogate c = false -> isTrailSurrogate c = false -> c < 65536 ->
     well_formed rest = true -> P rest -> P (c :: rest)) ->
  (forall c c2 rest,
     isLeadSurrogate c = true -> isTrailSurrogate c2 = true ->
     well_formed rest = true -> P rest -> P (c :: c2 :: rest)) ->
  forall s, well_formed s = true -> P s.
Proof.
  intros Hnil Hone Hpair s.
  assert (G : forall n (t : jsstring), (List.length t <= n)%nat ->
                well_formed t = true -> P t).
  { induction n as [|n IH]; intros t Hlen Hwf.
    - destruct t; [exact Hnil|cbn in Hlen; lia].
    - destruct t as [|c rest]; [exact Hnil|]. cbn [List.length] in Hlen.
      cbn [well_formed] in Hwf. destruct (isLeadSurrogate c) eqn:El.
      + destruct rest as [|c2 rest']; [discriminate|].
        apply andb_true_iff in Hwf as [Hc2 Hwf]. cbn [List.length] in Hlen.
        apply Hpair; try assumption. apply IH; [lia|assumption].
      + destruct (isTrailSurrogate c) eqn:Et; [discriminate|].
        apply andb_true_iff in Hwf as [Hc Hwf]. nprop.
        apply Hone; try assumption. apply IH; [lia|assumption]. }
  apply (G (List.length s)). apply le_n.
Qed.

Lemma lead_not_trail (c : codeunit) :
  isLeadSurrogate c = true -> isTrailSurrogate c = false.
Proof.
  unfold isLeadSurrogate, isTrailSurrogate. intros H. nprop. ntest. reflexivity.
Qed.

Lemma not_surrogate_scalar (c : codeunit) :
  isLeadSurrogate c = false -> isTrailSurrogate c = false -> c < 65536 -> scalar c.
Proof.
  unfold isLeadSurrogate, isTrailSurrogate, scalar. intros El Et Hc.
  split; [lia|]. intros [Ha Hb].
  destruct (N.leb_spec c 56319).
  - replace (55296 <=? c) with true in El by (symmetry; apply N.leb_le; lia).
    replace (c <=? 56319) with true in El by (symmetry; apply N.leb_le; lia).
    discriminate.
  - replace (56320 <=? c) with true in Et by (symmetry; apply N.leb_le; lia).
    replace (c <=? 57343) with true in Et by (symmetry; apply N.leb_le; lia).
    discriminate.
Qed.

(** [Encode] by code points, for a set of unescaped code units that are
    all below 128. *)
Section EncodeSteps.

Variable unescaped : codeunit -> bool.
Hypothesis unescaped_ascii_only : forall c, unescaped c = true -> c < 128.

Lemma Encode_one (c : codeunit) (rest : jsstring) :
  isLeadSurrogate c = false -> isTrailSurrogate c = false ->
  Encode unescaped (c :: rest)
  = rmap (app (if unescaped c then [c] else pct_utf8 c)) (Encode unescaped rest).
Proof.
  intros El Et. cbn [Encode]. rewrite El, Et.
  destruct (unescaped c); [|reflexivity].
  destruct (Encode unescaped rest); reflexivity.
Qed.

Lemma Encode_pair (c c2 : codeunit) (rest : jsstring) :
  isLeadSurrogate c = true -> isTrailSurrogate c2 = true ->
  Encode unescaped (c :: c2 :: rest)
  = rmap (app (pct_utf8 (pairCodePoint c c2))) (Encode unescaped rest).
Proof.
  intros El Et2. cbn [Encode]. rewrite El, Et2, (lead_not_trail c El).
  destruct (unescaped c) eqn:Eu; [|reflexivity].
  apply unescaped_ascii_only in Eu. unfold isLeadSurrogate in El. nprop. lia.
Qed.

Lemma Encode_total (s : jsstring) :
  well_formed s = true -> exists r, Encode unescaped s = Ok r.
Proof.
  revert s. apply well_formed_ind.
  - exists []. reflexivity.
  - intros c rest El Et Hc Hrest [r IH].
    rewrite Encode_one, IH by assumption. eexists. reflexivity.
  - intros c c2 rest El Et2 Hrest [r IH].
    rewrite Encode_pair, IH by assumption. eexists. reflexivity.
Qed.

Lemma Encode_app (a b : jsstring) :
  well_formed a = true ->
  Encode unescaped (a ++ b)
  = rbind (Encode unescaped a) (fun x => rmap (app x) (Encode unescaped b)).
Proof.
  revert a. apply well_formed_ind.
  - cbn [app Encode rbind]. destruct (Encode unescaped b); reflexivity.
  - intros c rest El Et Hc Hrest IH.
    cbn [app]. rewrite !Encode_one, IH by assumption.
    destruct (Encode unescaped rest) as [x|e]; cbn [rmap rbind]; [|reflexivity].
    destruct (Encode unescaped b) as [y|e]; cbn [rmap rbind]; [|reflexivity].
    now rewrite app_assoc.
  - intros c c2 rest El Et2 Hrest IH.
    cbn [app]. rewrite !Encode_pair, IH by assumption.
    destruct (Encode unescaped rest) as [x|e]; cbn [rmap rbind]; [|reflexivity].
    destruct (Encode unescaped b) as [y|e]; cbn [rmap rbind]; [|reflexivity].
    now rewrite app_assoc.
Qed.

End EncodeSteps.

Lemma encodeURI_unescaped_below (c : codeunit) : encodeURI_unescaped c = true -> c < 128.
Proof. intros H. now destruct (unescaped_ascii c H). Qed.

Lemma below_128_not_surrogate (c : codeunit) :
  c < 128 -> isLeadSurrogate c = false /\ isTrailSurrogate c = false.
Proof.
  intros Hc. unfold isLeadSurrogate, isTrailSurrogate. ntest. split; reflexivity.
Qed.

Lemma Encode_ill_formed (unescaped : codeunit -> bool) (n : nat) :
  (forall c, unescaped c = true -> c < 128) ->
  forall s : jsstring, (List.length s <= n)%nat -> codeUnits s = true ->
  well_formed s = false -> Encode unescaped s = Raise URIError.
Proof.
  intros Hu. induction n as [|n IH]; intros s Hlen Hcu Hwf.
  - destruct s; [discriminate|cbn in Hlen; lia].
  - destruct s as [|c rest]; [discriminate|]. cbn [List.length] in Hlen.
    unfold codeUnits in Hcu. cbn [forallb] in Hcu.
    apply andb_true_iff in Hcu as [Hc Hrest].
    cbn [well_formed] in Hwf. cbn [Encode].
    destruct (unescaped c) eqn:Eu.
    + destruct (below_128_not_surrogate c (Hu c Eu)) as [El Et].
      rewrite El, Et, Hc in Hwf. cbn [andb] in Hwf.
      rewrite (IH rest) by (try lia; assumption). reflexivity.
    + destruct (isTrailSurrogate c) eqn:Et; [reflexivity|].
      destruct (isLeadSurrogate c) eqn:El.
      * destruct rest as [|c2 rest']; [reflexivity|].
        destruct (isTrailSurrogate c2); [|reflexivity].
        cbn [andb] in Hwf. cbn [forallb] in Hrest.
        apply andb_true_iff in Hrest as [_ Hrest']. cbn [List.length] in Hlen.
        rewrite (IH rest') by (try lia; assumption). reflexivity.
      * rewrite Hc in Hwf. cbn [andb] in Hwf.
        rewrite (IH rest) by (try lia; assumption). reflexivity.
Qed.

Lemma hexUpper_safe (d : N) : d < 16 -> fragmentSafe (hexUpper d) = true.
Proof.
  intros Hd. unfold fragmentSafe, hexUpper, isAlpha, isDigit.
  destruct (N.ltb_spec d 10).
  - replace ((48 <=? 48 + d) && (48 + d <=? 57)) with true
      by (symmetry; ntest; reflexivity).
    now rewrite orb_true_r.
  - replace ((65 <=? 55 + d) && (55 + d <=? 90)) with true
      by (symmetry; ntest; reflexivity).
    reflexivity.
Qed.

Lemma pct_safe (b : N) : b < 256 -> Forall (fun c => fragmentSafe c = true) (pct b).
Proof.
  intros Hb. unfold pct. repeat constructor; try (apply hexUpper_safe; lia).
Qed.

Lemma flat_pct_safe (bs : list N) :
  Forall (fun b => b < 256) bs ->
  Forall (fun c => fragmentSafe c = true) (flat_map pct bs).
Proof.
  induction 1 as [|b bs Hb _ IH]; [constructor|].
  cbn [flat_map]. apply Forall_app. split; [now apply pct_safe|exact IH].
Qed.

Lemma plain_safe (c : codeunit) : fragmentPlain c = true -> fragmentSafe c = true.
Proof.
  unfold fragmentPlain, encodeURI_unescaped, uriUnescaped, fragmentSafe,
    isExtraEscaped, mem.
  cbn [existsb uriReserved uriMark js list_ascii_of_string map].
  intros H. apply andb_true_iff in H as [Hu Hx]. apply negb_true_iff in Hx.
  repeat (apply orb_true_iff in Hu; destruct Hu as [Hu|Hu]);
    first [ discriminate Hu
          | rewrite Hu; rewrite ?orb_true_r; reflexivity
          | unfold isAlpha; rewrite Hu; rewrite ?orb_true_r; reflexivity
          | apply N.eqb_eq in Hu; subst c; cbn in Hx |- *;
            first [discriminate Hx | reflexivity] ].
Qed.

Lemma escapeExtra_cons (c : codeunit) (r : jsstring) :
  escapeExtra (c :: r) = (if isExtraEscaped c then pct c else [c]) ++ escapeExtra r.
Proof.
  unfold escapeExtra, replaceEach. cbn [flat_map].
  destruct (isExtraEscaped c) eqn:Ex; [|reflexivity].
  now rewrite extra_escape.
Qed.

Lemma encodeFragment_safe_aux (s : jsstring) :
  well_formed s = true ->
  forall r, encodeURI s = Ok r -> Forall (fun c => fragmentSafe c = true) (escapeExtra r).
Proof.
  unfold encodeURI. revert s.
  apply (well_formed_ind
           (fun s => forall r, Encode encodeURI_unescaped s = Ok r ->
                     Forall (fun c => fragmentSafe c = true) (escapeExtra r))).
  - intros r E. injection E as <-. constructor.
  - intros c rest El Et Hc Hrest IH r E.
    rewrite Encode_one in E by assumption.
    destruct (Encode encodeURI_unescaped rest) as [x|e]; [|discriminate].
    cbn [rmap rbind] in E. injection E as <-. specialize (IH x eq_refl).
    destruct (encodeURI_unescaped c) eqn:Eu.
    + cbn [app]. rewrite escapeExtra_cons. apply Forall_app. split; [|exact IH].
      destruct (isExtraEscaped c) eqn:Ex.
      * apply pct_safe. apply encodeURI_unescaped_below in Eu. lia.
      * constructor; [|constructor]. apply plain_safe. unfold fragmentPlain.
        now rewrite Eu, Ex.
    + rewrite escapeExtra_app. apply Forall_app. split; [|exact IH].
      unfold pct_utf8. rewrite escapeExtra_pct by (apply utf8_octets; lia).
      apply flat_pct_safe, utf8_octets. lia.
  - intros c c2 rest El Et2 Hrest IH r E.
    rewrite Encode_pair in E by (try assumption; apply encodeURI_unescaped_below).
    destruct (Encode encodeURI_unescaped rest) as [x|e]; [|discriminate].
    cbn [rmap rbind] in E. injection E as <-. specialize (IH x eq_refl).
    destruct (pair_scalar c c2 El Et2) as [[Hmax _] _].
    rewrite escapeExtra_app. apply Forall_app. split; [|exact IH].
    unfold pct_utf8. rewrite escapeExtra_pct by (apply utf8_octets; lia).
    apply flat_pct_safe, utf8_octets. lia.
Qed.

(** X1: what [encodeFragment] writes for a string without unpaired
    surrogate, [decodeURIComponent] reads back as that string. *)
Theorem encodeFragment_decodes (s : jsstring) :
  well_formed s = true ->
  exists enc, encodeFragment s = Ok enc /\ decodeURIComponent enc = Ok s.
Proof. apply decode_encodeFragment. Qed.

(** X2: the result of [encodeFragment] holds only letters, digits and the
    characters [/ ? : @ & = + $ - _ . ~ # %]; none of [! ' ( ) * ; ,] is
    left, nor any character outside ASCII. *)
Theorem encodeFragment_alphabet (s enc : jsstring) :
  well_formed s = true -> encodeFragment s = Ok enc ->
  Forall (fun c => fragmentSafe c = true /\ isExtraEscaped c = false /\ c < 128) enc.
Proof.
  intros Hwf E. unfold encodeFragment in E.
  destruct (encodeURI s) as [r|e] eqn:Er; [|discriminate].
  cbn [rmap rbind] in E. injection E as <-.
  pose proof (encodeFragment_safe_aux s Hwf r Er) as Hs.
  eapply Forall_impl; [|exact Hs]. cbn beta. intros c Hc. split; [exact Hc|].
  unfold fragmentSafe, isAlpha, isDigit, mem in Hc.
  cbn [existsb js list_ascii_of_string map] in Hc.
  repeat (apply orb_true_iff in Hc; destruct Hc as [Hc|Hc]);
    first [ discriminate Hc
          | apply N.eqb_eq in Hc; subst c; split; [reflexivity|cbn; lia]
          | split;
            [ destruct (isExtraEscaped c) eqn:Ex; [|reflexivity];
              apply extra_cases in Ex; nprop; lia
            | nprop; lia ] ].
Qed.

(** X3: on a string of code units [encodeFragment] throws exactly when
    the string has an unpaired surrogate, and what it throws is URIError. *)
Theorem encodeFragment_throws (s : jsstring) :
  codeUnits s = true ->
  (well_formed s = false <-> encodeFragment s = Raise URIError)
  /\ (well_formed s = true <-> exists enc, encodeFragment s = Ok enc).
Proof.
  intros Hcu.
  assert (Hill : well_formed s = false -> encodeFragment s = Raise URIError).
  { intros Hwf. unfold encodeFragment, encodeURI.
    rewrite (Encode_ill_formed _ (List.length s) encodeURI_unescaped_below s)
      by (try apply le_n; assumption).
    reflexivity. }
  assert (Hok : well_formed s = true -> exists enc, encodeFragment s = Ok enc).
  { intros Hwf. destruct (decode_encodeFragment s Hwf) as [enc [E _]]. now exists enc. }
  split; split; try assumption.
  - intros E. destruct (well_formed s) eqn:Hwf; [|reflexivity].
    destruct (Hok eq_refl) as [enc E']. congruence.
  - intros [enc E]. destruct (well_formed s) eqn:Hwf; [reflexivity|].
    rewrite (Hill eq_refl) in E. discriminate.
Qed.

(** X4: the encoding of a concatenation of two strings without unpaired
    surrogate is the concatenation of their encodings. *)
Theorem encodeFragment_app (a b : jsstring) :
  well_formed a = true -> well_formed b = true ->
  exists ea eb, encodeFragment a = Ok ea /\ encodeFragment b = Ok eb
                /\ encodeFragment (a ++ b) = Ok (ea ++ eb).
Proof.
  intros Ha Hb.
  destruct (Encode_total _ encodeURI_unescaped_below a Ha) as [ra Era].
  destruct (Encode_total _ encodeURI_unescaped_below b Hb) as [rb Erb].
  exists (escapeExtra ra), (escapeExtra rb). unfold encodeFragment, encodeURI.
  rewrite (Encode_app _ encodeURI_unescaped_below a b Ha), Era, Erb.
  cbn [rmap rbind]. now rewrite escapeExtra_app.
Qed.

(** X5: a string of letters, digits and the characters
    [/ ? : @ & = + $ - _ . ~ #] is its own encoding. *)
Theorem encodeFragment_plain (s : jsstring) :
  forallb fragmentPlain s = true -> encodeFragment s = Ok s.
Proof.
  unfold encodeFragment, encodeURI. induction s as [|c rest IH]; [reflexivity|].
  cbn [forallb]. intros H. apply andb_true_iff in H as [Hc Hrest].
  specialize (IH Hrest). unfold fragmentPlain in Hc.
  apply andb_true_iff in Hc as [Hu Hx]. apply negb_true_iff in Hx.
  destruct (below_128_not_surrogate c (encodeURI_unescaped_below c Hu)) as [El Et].
  rewrite Encode_one by assumption. rewrite Hu.
  destruct (Encode encodeURI_unescaped rest) as [r|e]; [|discriminate].
  cbn [rmap rbind] in *. injection IH as IH. cbn [app].
  now rewrite escapeExtra_cons, Hx, IH.
Qed.

End EncodeFacts.

(** * [removeParameterFromUrl] *)

Section RemoveParameterFacts.

Variable parameter : jsstring.

Lemma occurs_cons (c : codeunit) (s : jsstring) :
  occurs parameter (c :: s) = startsParameter parameter (c :: s) || occurs parameter s.
Proof. reflexivity. Qed.

Lemma matchTrailing_none (s : jsstring) :
  startsParameter parameter s = false -> matchTrailing parameter s = None.
Proof.
  destruct s as [|c s1]; [reflexivity|]. cbn [startsParameter matchTrailing].
  now intros ->.
Qed.

Lemma matchInner_none (s : jsstring) :
  startsParameter parameter s = false -> matchInner parameter s = None.
Proof.
  destruct s as [|c s1]; [reflexivity|]. cbn [startsParameter matchInner].
  now intros ->.
Qed.

Lemma replaceTrailing_step (c : codeunit) (s : jsstring) :
  startsParameter parameter (c :: s) = false ->
  replaceTrailing parameter (c :: s) = c :: replaceTrailing parameter s.
Proof.
  intros Hs. cbn [replaceTrailing]. now rewrite (matchTrailing_none _ Hs).
Qed.

Lemma replaceInner_step (c : codeunit) (s : jsstring) :
  startsParameter parameter (c :: s) = false ->
  replaceInner parameter (c :: s) = c :: replaceInner parameter s.
Proof.
  intros Hs. cbn [replaceInner]. now rewrite (matchInner_none _ Hs).
Qed.

Lemma replaceTrailing_absent (s : jsstring) :
  occurs parameter s = false -> replaceTrailing parameter s = s.
Proof.
  induction s as [|c s IH]; [reflexivity|]. rewrite occurs_cons.
  intros H. apply orb_false_iff in H as [Hh Ho].
  rewrite replaceTrailing_step by assumption. now rewrite IH.
Qed.

Lemma replaceInner_absent (s : jsstring) :
  occurs parameter s = false -> replaceInner parameter s = s.
Proof.
  induction s as [|c s IH]; [reflexivity|]. rewrite occurs_cons.
  intros H. apply orb_false_iff in H as [Hh Ho].
  rewrite replaceInner_step by assumption. now rewrite IH.
Qed.

Lemma replacements_absent (url : jsstring) :
  occurs parameter url = false ->
  replaceInner parameter (replaceTrailing parameter url) = url.
Proof.
  intros Ho. rewrite replaceTrailing_absent by assumption.
  now apply replaceInner_absent.
Qed.

(** X6: for a parameter made of pattern characters only, which the two
    patterns match as it is written, a URL in which it does not occur
    after a ["?"] or a ["&"] and before a ["="] is returned as it is. *)
Theorem removeParameterFromUrl_absent (url : jsstring) :
  literalPattern parameter = true ->
  occurs parameter url = false -> removeParameterFromUrl url parameter = url.
Proof.
  intros _ Ho. unfold removeParameterFromUrl. now apply replacements_absent.
Qed.

(** *** Scanning up to the parameter *)

Hypothesis parameter_noMarks : noMarks parameter = true.

Lemma startsWith_before_mark (x a t : jsstring) (c : codeunit) :
  noMarks x = true -> isQueryMark c = true ->
  startsWith x (a ++ c :: t) = startsWith x a.
Proof.
  intros Hx Hc. revert a. induction x as [|h x IH]; intros a; [reflexivity|].
  cbn [noMarks forallb] in Hx. apply andb_true_iff in Hx as [Hh Hx].
  apply negb_true_iff in Hh. destruct a as [|y a]; cbn [app startsWith].
  - destruct (N.eqb_spec h c); [|reflexivity]. subst h. congruence.
  - now rewrite (IH Hx).
Qed.

Lemma name_noMarks : noMarks (parameter ++ [61]) = true.
Proof.
  unfold noMarks in *. rewrite forallb_app, parameter_noMarks. reflexivity.
Qed.

Lemma startsParameter_before_mark (y c : codeunit) (a t : jsstring) :
  isQueryMark c = true ->
  startsParameter parameter (y :: a ++ c :: t) = startsParameter parameter (y :: a).
Proof.
  intros Hc. cbn [startsParameter].
  now rewrite (startsWith_before_mark _ a t c name_noMarks Hc).
Qed.

Lemma replaceTrailing_before (base t : jsstring) (c : codeunit) :
  isQueryMark c = true -> occurs parameter base = false ->
  replaceTrailing parameter (base ++ c :: t) = base ++ replaceTrailing parameter (c :: t).
Proof.
  intros Hc. induction base as [|y base IH]; [reflexivity|].
  rewrite occurs_cons. intros H. apply orb_false_iff in H as [Hh Ho].
  cbn [app]. rewrite replaceTrailing_step, IH; try assumption; [reflexivity|].
  now rewrite startsParameter_before_mark.
Qed.

Lemma replaceInner_before (base t : jsstring) (c : codeunit) :
  isQueryMark c = true -> occurs parameter base = false ->
  replaceInner parameter (base ++ c :: t) = base ++ replaceInner parameter (c :: t).
Proof.
  intros Hc. induction base as [|y base IH]; [reflexivity|].
  rewrite occurs_cons. intros H. apply orb_false_iff in H as [Hh Ho].
  cbn [app]. rewrite replaceInner_step, IH; try assumption; [reflexivity|].
  now rewrite startsParameter_before_mark.
Qed.

Lemma replaceTrailing_noMarks (a t : jsstring) :
  noMarks a = true ->
  replaceTrailing parameter (a ++ t) = a ++ replaceTrailing parameter t.
Proof.
  induction a as [|y a IH]; [reflexivity|]. cbn [noMarks forallb].
  intros H. apply andb_true_iff in H as [Hy Ha]. apply negb_true_iff in Hy.
  cbn [app]. rewrite replaceTrailing_step; [now rewrite (IH Ha)|].
  cbn [startsParameter]. now rewrite Hy.
Qed.

Lemma startsWith_app_r (x a b : jsstring) :
  startsWith x a = true -> startsWith x (a ++ b) = true.
Proof.
  revert a. induction x as [|h x IH]; intros a; [reflexivity|].
  destruct a as [|y a]; cbn [app startsWith]; [discriminate|].
  intros H. apply andb_true_iff in H as [H1 H2]. rewrite H1. cbn [andb]. now apply IH.
Qed.

Lemma occurs_app_l (a b : jsstring) :
  occurs parameter (a ++ b) = false -> occurs parameter a = false.
Proof.
  induction a as [|y a IH]; [reflexivity|]. cbn [app]. rewrite !occurs_cons.
  intros H. apply orb_false_iff in H as [Hh Ho]. rewrite (IH Ho), orb_false_r.
  cbn [startsParameter] in *. destruct (isQueryMark y); [|reflexivity]. cbn [andb] in *.
  destruct (startsWith (parameter ++ [61]) a) eqn:E; [|reflexivity].
  now rewrite (startsWith_app_r _ a b E) in Hh.
Qed.

Lemma dropWhile_all (q : codeunit -> bool) (v t : jsstring) :
  forallb q v = true -> dropWhile q (v ++ t) = dropWhile q t.
Proof.
  induction v as [|y v IH]; [reflexivity|]. cbn [forallb app dropWhile].
  intros H. apply andb_true_iff in H as [Hy Hv]. rewrite Hy. now apply IH.
Qed.

Lemma skip_name (t : jsstring) :
  startsWith (parameter ++ [61]) (parameter ++ [61] ++ t) = true
  /\ skipn (S (List.length parameter)) (parameter ++ [61] ++ t) = t.
Proof.
  split.
  - rewrite app_assoc. apply startsWith_app.
  - rewrite app_assoc.
    replace (S (List.length parameter)) with (List.length (parameter ++ [61]))
      by (rewrite length_app; cbn; lia).
    apply skipn_app_length.
Qed.

(** X7: for a parameter made of pattern characters only, none of them
    ["&"]: when it is the last of the URL it is removed with its ["?"] or
    ["&"], up to the end or to the ["#"]; what was before it and the
    fragment are kept. *)
Theorem removeParameterFromUrl_last (base v frag : jsstring) (c : codeunit) :
  literalPattern parameter = true ->
  isQueryMark c = true ->
  forallb (fun x => negb ((x =? 38) || (x =? 35))) v = true ->
  frag = [] \/ (exists f, frag = 35 :: f
                          /\ forallb (fun x => negb (isLineTerminator x)) f = true) ->
  occurs parameter (base ++ frag) = false ->
  removeParameterFromUrl (base ++ [c] ++ parameter ++ [61] ++ v ++ frag) parameter
  = base ++ frag.
Proof.
  intros _ Hc Hv Hfrag Ho. unfold removeParameterFromUrl.
  assert (Hm : matchTrailing parameter (c :: parameter ++ [61] ++ v ++ frag)
               = Some frag).
  { cbn [matchTrailing]. destruct (skip_name (v ++ frag)) as [E1 E2].
    rewrite Hc, E1, E2. cbn [andb]. rewrite dropWhile_all by assumption.
    destruct Hfrag as [-> | [f [-> Hf]]]; [reflexivity|].
    cbn [dropWhile]. change (negb ((35 =? 38) || (35 =? 35))) with false. cbv iota.
    change (35 =? 35) with true. cbn [andb]. now rewrite Hf. }
  cbn [app]. rewrite replaceTrailing_before by (try assumption; now apply occurs_app_l with frag).
  cbn [replaceTrailing]. cbn [app] in Hm. rewrite Hm.
  now apply replaceInner_absent.
Qed.

(** X8: for a parameter made of pattern characters only, none of them
    ["&"]: when it is followed by another one it is removed up to and
    with the ["&"] that ends it; the ["?"] or ["&"] before it stays. *)
Theorem removeParameterFromUrl_inner (base v rest : jsstring) (c : codeunit) :
  literalPattern parameter = true ->
  isQueryMark c = true ->
  occurs parameter base = false ->
  forallb (fun x => negb (isQueryMark x || (x =? 35))) v = true ->
  occurs parameter (38 :: rest) = false ->
  removeParameterFromUrl (base ++ [c] ++ parameter ++ [61] ++ v ++ [38] ++ rest)
                         parameter
  = base ++ [c] ++ rest.
Proof.
  intros _ Hc Hbase Hv Hrest. unfold removeParameterFromUrl.
  assert (Hv1 : forallb (fun x => negb ((x =? 38) || (x =? 35))) v = true).
  { eapply forallb_forall. intros x Hx.
    pose proof (proj1 (forallb_forall _ _) Hv x Hx) as Hq. cbn beta in Hq.
    apply negb_true_iff in Hq. apply orb_false_iff in Hq as [Hq1 Hq2].
    unfold isQueryMark in Hq1. apply orb_false_iff in Hq1 as [_ Hq1].
    now rewrite Hq1, Hq2. }
  assert (Hv2 : forallb (fun x => negb (x =? 38)) v = true).
  { eapply forallb_forall. intros x Hx.
    pose proof (proj1 (forallb_forall _ _) Hv1 x Hx) as Hq. cbn beta in Hq.
    apply negb_true_iff in Hq. apply orb_false_iff in Hq as [Hq1 _]. now rewrite Hq1. }
  assert (Hv3 : noMarks v = true).
  { eapply forallb_forall. intros x Hx.
    pose proof (proj1 (forallb_forall _ _) Hv x Hx) as Hq. cbn beta in Hq.
    apply negb_true_iff in Hq. apply orb_false_iff in Hq as [Hq1 _]. now rewrite Hq1. }
  destruct (skip_name (v ++ [38] ++ rest)) as [E1 E2].
  (* the first pattern matches nowhere *)
  assert (Ht : replaceTrailing parameter
                 (base ++ [c] ++ parameter ++ [61] ++ v ++ [38] ++ rest)
               = base ++ [c] ++ parameter ++ [61] ++ v ++ [38] ++ rest).
  { cbn [app]. rewrite replaceTrailing_before by assumption. f_equal.
    cbn [replaceTrailing matchTrailing]. cbn [app] in E1, E2.
    rewrite Hc, E1, E2. cbn [andb]. rewrite dropWhile_all by assumption.
    cbn [dropWhile]. change (negb ((38 =? 38) || (38 =? 35))) with false. cbv iota.
    change (38 =? 35) with false. cbn [andb]. f_equal.
    change (replaceTrailing parameter (parameter ++ [61] ++ v ++ 38 :: rest)
            = parameter ++ [61] ++ v ++ 38 :: rest).
    rewrite (app_assoc parameter), (app_assoc (parameter ++ [61])).
    rewrite replaceTrailing_noMarks.
    - f_equal. now apply replaceTrailing_absent.
    - unfold noMarks in *. rewrite forallb_app. fold (noMarks (parameter ++ [61])).
      now rewrite name_noMarks, Hv3. }
  rewrite Ht. cbn [app]. rewrite replaceInner_before by assumption. f_equal.
  cbn [replaceInner matchInner]. cbn [app] in E1, E2.
  rewrite Hc, E1, E2. cbn [andb]. rewrite dropWhile_all by assumption.
  cbn [dropWhile]. change (negb (38 =? 38)) with false. cbv iota. reflexivity.
Qed.

End RemoveParameterFacts.

(** * More on the two methods *)

Section MethodFacts.

Context {T : Type} `{Trackable T}.
Variable urlSafeParse : jsstring -> Result json.
Variable parseSpecialUrl : jsstring -> Result jsstring.

Let update := updateFromUrlHash urlSafeParse parseSpecialUrl.

Lemma generation_cases (w : World T) :
  prevStateGeneration w = Some (changed_count (root w))
  \/ prevStateGeneration w <> Some (changed_count (root w)).
Proof.
  destruct (prevStateGeneration w) as [g|]; [|right; discriminate].
  destruct (Z.eq_dec g (changed_count (root w)));
    [left; congruence|right; congruence].
Qed.

Lemma string_cases (prev : option jsstring) (enc : jsstring) :
  prev = Some enc \/ prev <> Some enc.
Proof.
  destruct prev as [q|]; [|right; discriminate].
  destruct (list_eq_dec N.eq_dec q enc); [left; congruence|right; congruence].
Qed.

(** ** [setUrlHash] *)

(** X9: [setUrlHash] never calls the tree and never assigns the error
    cell, whether it completes or throws; its first call is the
    replacement of the URL by itself without [json_url], and it makes at
    most one more, which writes ["#"] or ["#!"] and the encoded state. *)
Theorem setUrlHash_frame (w : World T) :
  let w' := after setUrlHash w in
  root w' = root w
  /\ parseError w' = parseError w
  /\ exists l,
       calls w' = calls w
                  ++ CReplaceState (removeParameterFromUrl (href w) (js "json_url")) :: l
       /\ (l = []
           \/ exists enc,
                encodeFragment (JSON_stringify (toJSON (root w))) = Ok enc
                /\ (l = [CReplaceState (js "#")]
                    \/ l = [CReplaceState (js "#!" ++ enc)])).
Proof.
  unfold after, setUrlHash, bind, gets, history_replaceState, modify.
  cbn.
  destruct (negb match prevStateGeneration w with
                 | Some g => (changed_count (root w) =? g)%Z
                 | None => false
                 end);
    [|cbn; repeat split; exists []; split; [reflexivity|now left]].
  destruct (encodeFragment (JSON_stringify (toJSON (root w)))) as [enc|e];
    [|cbn; repeat split; exists []; split; [reflexivity|now left]].
  cbn.
  destruct (negb match prevStateString w with
                 | Some y => str_eqb enc y
                 | None => false
                 end);
    [|cbn; repeat split; exists []; split; [reflexivity|now left]].
  destruct (decodeURIComponent enc) as [dec|e]; cbn;
    [|repeat split; exists []; split; [reflexivity|now left]].
  destruct (str_eqb dec [123; 125]); cbn; repeat split.
  - eexists. split; [now rewrite <- app_assoc|]. right. exists enc. split; [reflexivity|].
    now left.
  - eexists. split; [now rewrite <- app_assoc|]. right. exists enc. split; [reflexivity|].
    now right.
Qed.

Lemma setUrlHash_generation_after (w : World T) :
  prevStateGeneration (after setUrlHash w) = Some (changed_count (root w))
  /\ root (after setUrlHash w) = root w.
Proof.
  unfold after, setUrlHash, bind, gets, history_replaceState, modify.
  cbn.
  destruct (prevStateGeneration w) as [g|] eqn:Eg; cbn.
  - destruct (Z.eqb_spec (changed_count (root w)) g) as [E|E]; cbn.
    + rewrite Eg. split; congruence.
    + destruct (encodeFragment (JSON_stringify (toJSON (root w)))) as [enc|e];
        [|cbn; now split].
      cbn.
      destruct (negb match prevStateString w with
                     | Some y => str_eqb enc y
                     | None => false
                     end); [|cbn; now split].
      destruct (decodeURIComponent enc) as [dec|e]; cbn; [|now split].
      destruct (str_eqb dec [123; 125]); cbn; now split.
  - destruct (encodeFragment (JSON_stringify (toJSON (root w)))) as [enc|e];
      [|cbn; now split].
    cbn.
    destruct (negb match prevStateString w with
                   | Some y => str_eqb enc y
                   | None => false
                   end); [|cbn; now split].
    destruct (decodeURIComponent enc) as [dec|e]; cbn; [|now split].
    destruct (str_eqb dec [123; 125]); cbn; now split.
Qed.

(** X10: when [setUrlHash] ends, [prevStateGeneration] is the generation
    of the tree, whatever it was before; so a second call that follows
    with the tree unchanged does the [json_url] replacement and nothing
    else. *)
Theorem setUrlHash_twice (w : World T) :
  let w1 := after setUrlHash w in
  prevStateGeneration w1 = Some (changed_count (root w))
  /\ setUrlHash w1 = (Normal tt, stripJsonUrl w1).
Proof.
  cbv zeta. destruct (setUrlHash_generation_after w) as [Hg Hr].
  split; [exact Hg|]. apply setUrlHash_same_generation. now rewrite Hg, Hr.
Qed.

(** X11: on a tree whose value holds code units only [setUrlHash] does
    not throw; and when the generation of the tree is not the cached one,
    the pair it leaves describes the tree: the encoding of its value and
    its generation. *)
Theorem setUrlHash_describes_tree (w : World T) :
  json_codeUnits (toJSON (root w)) = true ->
  exists enc,
    encodeFragment (JSON_stringify (toJSON (root w))) = Ok enc
    /\ fst (setUrlHash w) = Normal tt
    /\ (prevStateGeneration w <> Some (changed_count (root w)) ->
        prevStateString (after setUrlHash w) = Some enc
        /\ prevStateGeneration (after setUrlHash w) = Some (changed_count (root w))).
Proof.
  intros Hwf. apply JSON_stringify_well_formed in Hwf.
  destruct (decode_encodeFragment _ Hwf) as [enc [He Hd]].
  exists enc. split; [exact He|].
  destruct (generation_cases w) as [Hg|Hg].
  - split; [now rewrite (setUrlHash_same_generation w Hg)|]. contradiction.
  - destruct (string_cases (prevStateString w) enc) as [Hp|Hp].
    + unfold after. rewrite (setUrlHash_same_string w enc Hg He Hp).
      split; [reflexivity|]. intros _. split; [exact Hp|reflexivity].
    + unfold after. rewrite (setUrlHash_writes w enc _ Hg He Hp Hd).
      split; [reflexivity|]. intros _. split; reflexivity.
Qed.

Lemma takeWhile_stop (q : codeunit -> bool) (b u : jsstring) (c : codeunit) :
  q c = false -> takeWhile q (takeWhile q b ++ c :: u) = takeWhile q b.
Proof.
  intros Hc. induction b as [|y b IH]; cbn [takeWhile app].
  - now rewrite Hc.
  - destruct (q y) eqn:Ey; cbn [takeWhile app].
    + now rewrite Ey, IH.
    + now rewrite Hc.
Qed.

(** X12: a write of [setUrlHash] changes the fragment of the URL and
    nothing before it: the fragment becomes ["#"] for the state [{}] and
    ["#!"] with the encoded state for any other, and the part before it
    is that of the URL without [json_url]. *)
Theorem setUrlHash_writes_fragment (w : World T) :
  json_codeUnits (toJSON (root w)) = true ->
  prevStateGeneration w <> Some (changed_count (root w)) ->
  exists enc,
    encodeFragment (JSON_stringify (toJSON (root w))) = Ok enc
    /\ (prevStateString w <> Some enc ->
        let w' := after setUrlHash w in
        replace_before_hash (href w')
        = (if str_eqb (JSON_stringify (toJSON (root w))) (js "{}")
           then js "#" else js "#!" ++ enc)
        /\ beforeHash (href w') = beforeHash (href (stripJsonUrl w))).
Proof.
  intros Hwf Hg. apply JSON_stringify_well_formed in Hwf.
  destruct (decode_encodeFragment _ Hwf) as [enc [He Hd]].
  exists enc. split; [exact He|]. intros Hp. cbv zeta.
  unfold after. rewrite (setUrlHash_writes w enc _ Hg He Hp Hd). cbv zeta. cbn [snd].
  set (url := if str_eqb _ (js "{}") then js "#" else js "#!" ++ enc).
  assert (Hu : exists u, url = 35 :: u).
  { unfold url. destruct (str_eqb _ (js "{}")); eexists; reflexivity. }
  destruct Hu as [u Hu]. unfold log, set_href. cbn [href]. rewrite Hu. cbn [resolveUrl].
  split.
  - unfold replace_before_hash. now rewrite dropWhile_takeWhile.
  - unfold beforeHash. now apply takeWhile_stop.
Qed.

(** X13: a tree read in the standard form leaves in [prevStateString] a
    text that starts with ["{"], and the encoding of an object starts
    with ["%7B"]: whatever the cached string that does not start so, the
    next [setUrlHash] with a new generation writes the URL, also when
    the tree holds the value that was read. *)
Theorem setUrlHash_writes_after_read (w : World T) (q : jsstring)
    (members : list (jsstring * json)) :
  prevStateString w = Some q ->
  startsWith (js "%7B") q = false ->
  toJSON (root w) = JObject members ->
  json_codeUnits (JObject members) = true ->
  prevStateGeneration w <> Some (changed_count (root w)) ->
  exists enc,
    encodeFragment (JSON_stringify (JObject members)) = Ok enc
    /\ prevStateString (after setUrlHash w) = Some enc
    /\ calls (after setUrlHash w)
       = calls w
         ++ [CReplaceState (removeParameterFromUrl (href w) (js "json_url"));
             CReplaceState (if str_eqb (JSON_stringify (JObject members)) (js "{}")
                            then js "#" else js "#!" ++ enc)].
Proof.
  intros Hq Hs Hj Hwf Hg. apply JSON_stringify_well_formed in Hwf.
  destruct (decode_encodeFragment _ Hwf) as [enc [He Hd]].
  exists enc. split; [exact He|].
  destruct (encode_brace _ _ He) as [enc' Henc].
  assert (Hp : prevStateString w <> Some enc).
  { rewrite Hq. intros E. injection E as ->. rewrite Henc in Hs. discriminate Hs. }
  pose proof (setUrlHash_writes w enc (JSON_stringify (JObject members)) Hg) as Hw.
  rewrite Hj in Hw.
  specialize (Hw He Hp Hd). unfold after. rewrite Hw. cbv zeta. cbn [snd].
  split; [reflexivity|].
  unfold stripJsonUrl, log, set_href, set_prevStateString, set_prevStateGeneration.
  cbn [calls]. rewrite <- app_assoc. reflexivity.
Qed.

Lemma resolveUrl_whole (base url : jsstring) :
  startsWith (js "#") url = false -> resolveUrl base url = url.
Proof.
  destruct url as [|c r]; [reflexivity|].
  change (js "#") with [35]. cbn [startsWith].
  intros E. unfold resolveUrl.
  destruct (N.eqb_spec 35 c) as [<-|Hc]; [discriminate E|].
  destruct c as [|p]; [reflexivity|].
  do 6 (try (destruct p as [p|p|]; try reflexivity)).
  now contradiction Hc.
Qed.

(** X14: every call of [setUrlHash] calls [history.replaceState]: with
    no [json_url] in the URL and the generation of the tree cached, the
    call is made with the URL as it is, and nothing else changes. *)
Theorem setUrlHash_idle (w : World T) :
  occurs (js "json_url") (href w) = false ->
  startsWith (js "#") (href w) = false ->
  prevStateGeneration w = Some (changed_count (root w)) ->
  setUrlHash w = (Normal tt, log (CReplaceState (href w)) w).
Proof.
  intros Ho Hs Hg. rewrite (setUrlHash_same_generation w Hg). f_equal.
  unfold stripJsonUrl, removeParameterFromUrl. rewrite (replacements_absent _ _ Ho).
  rewrite (resolveUrl_whole _ _ Hs). destruct w; reflexivity.
Qed.

(** ** [updateFromUrlHash] *)

Lemma frame_root_restoreState (state : json) (w : World T) :
  let w' := snd (root_restoreState state w) in
  href w' = href w /\ prevStateString w' = prevStateString w
  /\ calls w' = calls w ++ [CRestoreState state].
Proof.
  unfold root_restoreState.
  destruct (restoreState state (root w)) as [r [e|]]; repeat split.
Qed.

Lemma applyFragment_remote (found : bool) (s : jsstring) (w : World T) :
  matchRemote s = true ->
  applyFragment urlSafeParse parseSpecialUrl found s w
  = match parseSpecialUrl (slice 2 s) with
    | Ok u => (Normal tt, log (CFetch u) w)
    | Raise e => (Throw e, w)
    end.
Proof.
  intros Hr. unfold applyFragment. rewrite Hr. unfold lift, bind, modify, ret, throw.
  destruct (parseSpecialUrl (slice 2 s)); reflexivity.
Qed.

Lemma applyFragment_frame (found : bool) (s : jsstring) (w : World T) :
  let w' := snd (applyFragment urlSafeParse parseSpecialUrl found s w) in
  href w' = href w
  /\ exists l, calls w' = calls w ++ l
               /\ forallb (fun c => negb (isReplaceState c)) l = true.
Proof.
  cbv zeta. destruct (matchRemote s) eqn:Hr.
  - rewrite applyFragment_remote by assumption.
    destruct (parseSpecialUrl (slice 2 s)) as [u|e]; cbn [snd].
    + split; [reflexivity|]. exists [CFetch u]. now split.
    + split; [reflexivity|]. exists []. split; [now rewrite app_nil_r|reflexivity].
  - assert (Hnil : href w = href w
                   /\ exists l, calls w = calls w ++ l
                     /\ forallb (fun c => negb (isReplaceState c)) l = true).
    { split; [reflexivity|]. exists []. split; [now rewrite app_nil_r|reflexivity]. }
    destruct (startsWith (js "#!+") s) eqn:Hl.
    + rewrite applyFragment_legacy by assumption.
      destruct (decodePayload found (slice 3 s)) as [p|e]; [|exact Hnil].
      destruct (urlSafeParse p) as [state|e]; [|exact Hnil].
      destruct (isObject state); [|exact Hnil].
      destruct (frame_root_restoreState state w) as [Fh [_ Fc]].
      destruct (root_restoreState state w) as [[u|e|] w1]; cbn [snd] in *;
        (split; [exact Fh|]); exists [CRestoreState state]; now split.
    + destruct (startsWith (js "#!") s) eqn:Hs.
      * rewrite applyFragment_standard by assumption.
        destruct (decodePayload found (slice 2 s)) as [p|e]; [|exact Hnil].
        destruct (opt_str_eqb (Some p) (prevStateString w)); [exact Hnil|].
        assert (Hreset : href (recordedAndReset p w) = href w
                         /\ exists l, calls (recordedAndReset p w) = calls w ++ l
                           /\ forallb (fun c => negb (isReplaceState c)) l = true).
        { split; [reflexivity|]. exists [CReset]. now split. }
        destruct (urlSafeParse p) as [state|e]; [|exact Hreset].
        destruct (isObject state); [|exact Hreset].
        destruct (frame_root_restoreState state (recordedAndReset p w)) as [Fh [_ Fc]].
        split; [exact Fh|]. exists [CReset; CRestoreState state]. split; [|reflexivity].
        rewrite Fc. unfold recordedAndReset. cbn [calls log]. now rewrite <- app_assoc.
      * rewrite applyFragment_malformed by assumption. exact Hnil.
Qed.

(** X15: [updateFromUrlHash] never throws, whatever the URL and whatever
    the parser and the tree do: it ends normally or by its [return]; it
    leaves the URL as it is and makes no call of [history.replaceState]. *)
Theorem updateFromUrlHash_contained (w : World T) :
  let r := updateFromUrlHash urlSafeParse parseSpecialUrl w in
  (fst r = Normal tt \/ r = (Return, w))
  /\ href (snd r) = href w
  /\ exists l, calls (snd r) = calls w ++ l
               /\ forallb (fun c => negb (isReplaceState c)) l = true.
Proof.
  cbv zeta. unfold update in *. rewrite update_settle.
  pose proof (applyFragment_frame (fst (fragmentRead w)) (snd (fragmentRead w)) w) as F.
  assert (R : forall w1, applyFragment urlSafeParse parseSpecialUrl
                 (fst (fragmentRead w)) (snd (fragmentRead w)) w = (Return, w1) ->
               w1 = w).
  { intros w1. destruct (matchRemote (snd (fragmentRead w))) eqn:Hr.
    - rewrite applyFragment_remote by assumption.
      destruct (parseSpecialUrl _); discriminate.
    - destruct (startsWith (js "#!+") (snd (fragmentRead w))) eqn:Hl.
      + rewrite applyFragment_legacy by assumption.
        destruct (decodePayload _ _) as [p|e]; [|discriminate].
        destruct (urlSafeParse p) as [state|e]; [|discriminate].
        destruct (isObject state); [|discriminate].
        unfold root_restoreState.
        destruct (restoreState state (root w)) as [r [e|]]; discriminate.
      + destruct (startsWith (js "#!") (snd (fragmentRead w))) eqn:Hs.
        * rewrite applyFragment_standard by assumption.
          destruct (decodePayload _ _) as [p|e]; [|discriminate].
          destruct (opt_str_eqb _ _); [congruence|].
          destruct (urlSafeParse p) as [state|e]; [|discriminate].
          destruct (isObject state); [|discriminate].
          unfold root_restoreState.
          destruct (restoreState state _) as [r [e|]]; discriminate.
        * rewrite applyFragment_malformed by assumption. discriminate. }
  destruct (applyFragment _ _ _ _ w) as [[u|e|] w1]; cbn [settle fst snd] in *.
  - split; [now left|exact F].
  - split; [now left|exact F].
  - rewrite (R w1 eq_refl). split; [now right|].
    rewrite (R w1 eq_refl) in F. exact F.
Qed.

Lemma opt_str_eqb_true (p : jsstring) (prev : option jsstring) :
  opt_str_eqb (Some p) prev = true -> prev = Some p.
Proof.
  destruct prev as [q|]; [|discriminate]. cbn. intros E.
  apply str_eqb_eq in E. now subst.
Qed.

Lemma standard_records (w : World T) (p : jsstring) :
  matchRemote (snd (fragmentRead w)) = false ->
  startsWith (js "#!+") (snd (fragmentRead w)) = false ->
  startsWith (js "#!") (snd (fragmentRead w)) = true ->
  decodePayload (fst (fragmentRead w)) (slice 2 (snd (fragmentRead w))) = Ok p ->
  href (after update w) = href w /\ prevStateString (after update w) = Some p.
Proof.
  intros Hr Hl Hs Hd. unfold after, update.
  rewrite update_settle, applyFragment_standard, Hd by assumption.
  destruct (opt_str_eqb (Some p) (prevStateString w)) eqn:Ep.
  - apply opt_str_eqb_true in Ep. now split.
  - destruct (urlSafeParse p) as [state|e]; [|now split].
    destruct (isObject state); [|now split].
    unfold root_restoreState.
    destruct (restoreState state _) as [r [e|]]; now split.
Qed.

(** X16: in the standard form the decoded string is in [prevStateString]
    when [updateFromUrlHash] ends, whether the state was restored or the
    text refused; a second call on the same URL therefore returns at the
    comparison and changes nothing: a text that failed is not read again
    and its error stays. *)
Theorem updateFromUrlHash_twice (w : World T) (p : jsstring) :
  matchRemote (snd (fragmentRead w)) = false ->
  startsWith (js "#!+") (snd (fragmentRead w)) = false ->
  startsWith (js "#!") (snd (fragmentRead w)) = true ->
  decodePayload (fst (fragmentRead w)) (slice 2 (snd (fragmentRead w))) = Ok p ->
  let w1 := after (updateFromUrlHash urlSafeParse parseSpecialUrl) w in
  prevStateString w1 = Some p
  /\ updateFromUrlHash urlSafeParse parseSpecialUrl w1 = (Return, w1).
Proof.
  intros Hr Hl Hs Hd. cbv zeta. fold update.
  destruct (standard_records w p Hr Hl Hs Hd) as [Hh Hp].
  split; [exact Hp|].
  assert (Hf : fragmentRead (after update w) = fragmentRead w).
  { unfold fragmentRead, recovered. now rewrite Hh. }
  unfold update in *. rewrite update_settle, Hf, applyFragment_standard, Hd by assumption.
  rewrite Hp. cbn [opt_str_eqb]. rewrite str_eqb_refl. reflexivity.
Qed.

(** X17: the legacy form ["#!+"] never resets the tree: the only call
    it can make is one [restoreState].  When it succeeds it clears
    [prevStateString]; when it fails, also in [restoreState], the cached
    string stays as it was. *)
Theorem legacy_form_merges (w : World T) :
  startsWith (js "#!+") (snd (fragmentRead w)) = true ->
  let w' := after (updateFromUrlHash urlSafeParse parseSpecialUrl) w in
  (calls w' = calls w \/ exists state, calls w' = calls w ++ [CRestoreState state])
  /\ (parseError w' = None -> prevStateString w' = None)
  /\ (parseError w' <> None -> prevStateString w' = prevStateString w).
Proof.
  intros Hl. cbv zeta. unfold update in *. unfold after.
  rewrite update_settle, applyFragment_legacy by assumption.
  assert (Hfail : forall e,
            let w' := snd (settle (Throw e, w)) in
            (calls w' = calls w
             \/ exists state, calls w' = calls w ++ [CRestoreState state])
            /\ (parseError w' = None -> prevStateString w' = None)
            /\ (parseError w' <> None -> prevStateString w' = prevStateString w)).
  { intros e. cbn. split; [now left|]. split; [discriminate|reflexivity]. }
  destruct (decodePayload _ _) as [p|e]; [|apply Hfail].
  destruct (urlSafeParse p) as [state|e]; [|apply Hfail].
  destruct (isObject state); [|apply Hfail].
  unfold root_restoreState.
  destruct (restoreState state (root w)) as [r [e|]]; cbn.
  - split; [right; now exists state|]. split; [discriminate|reflexivity].
  - split; [right; now exists state|]. split; [reflexivity|congruence].
Qed.

(** X18: the remote form makes no call of the tree and assigns neither
    field of the cached pair: it asks for the fetch of the URL that
    [parseSpecialUrl] returns and clears the error cell before any
    answer, or sets the error cell to what [parseSpecialUrl] throws. *)
Theorem remote_form_defers (w : World T) :
  matchRemote (snd (fragmentRead w)) = true ->
  updateFromUrlHash urlSafeParse parseSpecialUrl w
  = (Normal tt,
     match parseSpecialUrl (slice 2 (snd (fragmentRead w))) with
     | Ok u => set_parseError None (log (CFetch u) w)
     | Raise e => set_parseError (Some e) w
     end).
Proof.
  intros Hr. unfold update in *. rewrite update_settle, applyFragment_remote by assumption.
  destruct (parseSpecialUrl _); reflexivity.
Qed.

(** X19: the callback of the remote form checks that the answer is an
    object before it touches the tree; for an object it resets the tree
    and restores the answer, and the cached pair stays as it was, so the
    next [setUrlHash] sees a new generation. *)
Theorem remoteStateLoaded_calls (fetched : json) (w : World T) :
  let r := remoteStateLoaded fetched w in
  (isObject fetched = false -> r = (Throw NotAnObject, w))
  /\ (isObject fetched = true ->
      calls (snd r) = calls w ++ [CReset; CRestoreState fetched]
      /\ prevStateString (snd r) = prevStateString w
      /\ prevStateGeneration (snd r) = prevStateGeneration w
      /\ href (snd r) = href w).
Proof.
  cbv zeta. split.
  - apply remote_checks_before_reset.
  - intros Ho. unfold remoteStateLoaded, verifyObject. rewrite Ho.
    unfold root_reset, lift. unfold bind, ret, modify. cbv beta iota zeta.
    unfold root_restoreState. cbn [root set_root log].
    destruct (restoreState fetched _) as [r [e|]]; cbn;
      rewrite <- app_assoc; repeat split.
Qed.

End MethodFacts.

(** * [checkRedirectFragment] *)

Section RedirectFacts.

Context {T : Type} `{Trackable T}.

Lemma takeWhile_all (q : codeunit -> bool) (s : jsstring) :
  forallb q s = true -> takeWhile q s = s /\ dropWhile q s = [].
Proof.
  induction s as [|c s IH]; [now split|]. cbn [forallb takeWhile dropWhile].
  intros E. apply andb_true_iff in E as [Hc Hs]. rewrite Hc.
  destruct (IH Hs) as [-> ->]. now split.
Qed.

Lemma afterLast63_none (q : jsstring) :
  forallb (fun c => negb (c =? 63)) q = true -> afterLast63 q = None.
Proof.
  induction q as [|c q IH]; [reflexivity|]. cbn [forallb afterLast63].
  intros E. apply andb_true_iff in E as [Hc Hq]. rewrite (IH Hq).
  apply negb_true_iff in Hc. now rewrite Hc.
Qed.

Lemma afterLast63_last (base q : jsstring) :
  forallb (fun c => negb (c =? 63)) q = true ->
  afterLast63 (base ++ 63 :: q) = Some q.
Proof.
  intros Hq. induction base as [|c base IH]; cbn [app afterLast63].
  - now rewrite (afterLast63_none q Hq).
  - now rewrite IH.
Qed.

Lemma replace_upto_question_last (base q : jsstring) :
  forallb (fun c => negb (isLineTerminator c)) (base ++ 63 :: q) = true ->
  forallb (fun c => negb (c =? 63)) q = true ->
  replace_upto_question (base ++ 63 :: q) = q.
Proof.
  intros Hl Hq. unfold replace_upto_question.
  destruct (takeWhile_all _ _ Hl) as [-> ->].
  rewrite (afterLast63_last base q Hq). apply app_nil_r.
Qed.

(** X20: the query that [checkRedirectFragment] reads is what follows
    the last ["?"] of the URL, the fragment included; what comes before
    that ["?"] is not looked at. *)
Theorem query_after_last_question (w : World T) (base q : jsstring) :
  href w = base ++ 63 :: q ->
  forallb (fun c => negb (isLineTerminator c)) (href w) = true ->
  forallb (fun c => negb (c =? 63)) q = true ->
  checkRedirectFragment w
  = (Normal match params_get (js "redirect_fragment") (URLSearchParams q) with
            | Some v => (true, 35 :: v)
            | None => (false, [])
            end, w).
Proof.
  intros Hh Hl Hq. rewrite Hh in Hl.
  assert (E : recovered w = params_get (js "redirect_fragment") (URLSearchParams q)).
  { unfold recovered. now rewrite Hh, replace_upto_question_last. }
  destruct (params_get _ (URLSearchParams q)) as [v|].
  - now apply checkRedirectFragment_found.
  - now apply checkRedirectFragment_none.
Qed.

(** *** The value of the parameter *)

Lemma utf8Bytes_ascii (a b : jsstring) :
  forallb (fun c => c <? 128) a = true -> utf8Bytes (a ++ b) = a ++ utf8Bytes b.
Proof.
  induction a as [|c a IH]; [reflexivity|]. cbn [forallb]. intros E.
  apply andb_true_iff in E as [Hc Ha]. cbn [app utf8Bytes].
  assert (Hlt : c < 128) by now apply N.ltb_lt.
  destruct (below_128_not_surrogate c Hlt) as [-> ->].
  unfold utf8. rewrite Hc. cbn [app]. now rewrite (IH Ha).
Qed.

Lemma splitOn_single (sep : N) (x : list N) :
  forallb (fun c => negb (c =? sep)) x = true -> splitOn sep x = [x].
Proof.
  induction x as [|c x IH]; [reflexivity|]. cbn [forallb splitOn]. intros E.
  apply andb_true_iff in E as [Hc Hx]. apply negb_true_iff in Hc.
  now rewrite Hc, (IH Hx).
Qed.

Lemma splitOn_cons (sep : N) (bs : list N) :
  exists cur others, splitOn sep bs = cur :: others.
Proof.
  destruct bs as [|b rest]; cbn [splitOn]; [now eexists _, _|].
  destruct (b =? sep); [now eexists _, _|].
  destruct (splitOn sep rest); now eexists _, _.
Qed.

Lemma splitOn_first (sep : N) (x y : list N) :
  forallb (fun c => negb (c =? sep)) x = true ->
  splitOn sep (x ++ sep :: y) = x :: splitOn sep y.
Proof.
  induction x as [|c x IH]; cbn [forallb app splitOn].
  - intros _. now rewrite N.eqb_refl.
  - intros E. apply andb_true_iff in E as [Hc Hx]. apply negb_true_iff in Hc.
    now rewrite Hc, (IH Hx).
Qed.

Lemma splitFirst61_app (n v : list N) :
  forallb (fun c => negb (c =? 61)) n = true ->
  splitFirst61 (n ++ 61 :: v) = (n, v).
Proof.
  induction n as [|c n IH]; cbn [forallb app splitFirst61]; [reflexivity|].
  intros E. apply andb_true_iff in E as [Hc Hn]. apply negb_true_iff in Hc.
  now rewrite Hc, (IH Hn).
Qed.

Lemma plusToSpace_plain (v : list N) :
  forallb (fun c => negb (c =? 43)) v = true -> plusToSpace v = v.
Proof.
  unfold plusToSpace. induction v as [|c v IH]; [reflexivity|]. cbn [forallb map].
  intros E. apply andb_true_iff in E as [Hc Hv]. apply negb_true_iff in Hc.
  now rewrite Hc, (IH Hv).
Qed.

Lemma percentDecode_plain (v : list N) :
  forallb (fun c => negb (c =? 37)) v = true -> percentDecode v = v.
Proof.
  induction v as [|c v IH]; [reflexivity|]. cbn [forallb percentDecode].
  intros E. apply andb_true_iff in E as [Hc Hv]. apply negb_true_iff in Hc.
  now rewrite Hc, (IH Hv).
Qed.

Lemma utf8Decode_ascii (v : list N) :
  forallb (fun c => c <? 128) v = true -> utf8Decode d_init v = v.
Proof.
  induction v as [|c v IH]; [reflexivity|]. cbn [forallb]. intros E.
  apply andb_true_iff in E as [Hc Hv]. cbn [utf8Decode d_needed d_init].
  unfold d_start. rewrite Hc. cbn [app]. now rewrite (IH Hv).
Qed.

Lemma forallb_weaken (q1 q2 : codeunit -> bool) (s : jsstring) :
  (forall c, q1 c = true -> q2 c = true) ->
  forallb q1 s = true -> forallb q2 s = true.
Proof.
  intros Hq. induction s as [|c s IH]; [reflexivity|]. cbn [forallb].
  intros E. apply andb_true_iff in E as [Hc Hs]. now rewrite (Hq c Hc), (IH Hs).
Qed.

Lemma inValue_parts (c : codeunit) :
  inValue c = true ->
  (c <? 128) = true /\ negb (c =? 63) = true /\ negb (c =? 38) = true
  /\ negb (isLineTerminator c) = true.
Proof.
  unfold inValue. intros E. apply andb_true_iff in E as [E E4].
  apply andb_true_iff in E as [E E3]. apply andb_true_iff in E as [E1 E2].
  now repeat split.
Qed.

(** X21: a URL whose last ["?"] is followed by [redirect_fragment=], a
    value and then nothing or a ["&"] and more parameters: the pair
    returned holds [true] and ["#"] with the value form-decoded; a value
    without ["%"] and ["+"] comes back as it is written, a ["#"] and
    what follows it in the URL included. *)
Theorem checkRedirectFragment_reads (w : World T) (base v tail : jsstring) :
  href w = base ++ js "?redirect_fragment=" ++ v ++ tail ->
  forallb (fun c => negb (isLineTerminator c)) base = true ->
  forallb inValue v = true ->
  tail = [] \/ (exists rest, tail = 38 :: rest) ->
  forallb (fun c => negb (c =? 63) && negb (isLineTerminator c)) tail = true ->
  checkRedirectFragment w = (Normal (true, 35 :: decodeField v), w)
  /\ fragmentRead w = (true, 35 :: decodeField v)
  /\ (forallb (fun c => negb (c =? 37) && negb (c =? 43)) v = true ->
      decodeField v = v).
Proof.
  intros Hh Hbase Hv Htail Ht.
  assert (Hascii : forallb (fun c => c <? 128) v = true).
  { revert Hv. apply forallb_weaken. intros c Hc. now apply inValue_parts in Hc. }
  assert (H63 : forallb (fun c => negb (c =? 63)) v = true).
  { revert Hv. apply forallb_weaken. intros c Hc. now apply inValue_parts in Hc. }
  assert (H38 : forallb (fun c => negb (c =? 38)) v = true).
  { revert Hv. apply forallb_weaken. intros c Hc. now apply inValue_parts in Hc. }
  assert (Hlt : forallb (fun c => negb (isLineTerminator c)) v = true).
  { revert Hv. apply forallb_weaken. intros c Hc. now apply inValue_parts in Hc. }
  assert (Ht63 : forallb (fun c => negb (c =? 63)) tail = true).
  { revert Ht. apply forallb_weaken. intros c Hc. now apply andb_true_iff in Hc. }
  assert (Htlt : forallb (fun c => negb (isLineTerminator c)) tail = true).
  { revert Ht. apply forallb_weaken. intros c Hc. now apply andb_true_iff in Hc. }
  set (name := js "redirect_fragment").
  assert (Hq : replace_upto_question (href w) = name ++ 61 :: v ++ tail).
  { rewrite Hh.
    change (base ++ js "?redirect_fragment=" ++ v ++ tail)
      with (base ++ 63 :: name ++ 61 :: v ++ tail).
    apply replace_upto_question_last.
    - rewrite forallb_app. rewrite Hbase. cbn [andb].
      change (63 :: name ++ 61 :: v ++ tail) with ((63 :: name ++ [61]) ++ v ++ tail).
      now rewrite !forallb_app, Hlt, Htlt.
    - change (name ++ 61 :: v ++ tail) with ((name ++ [61]) ++ v ++ tail).
      now rewrite !forallb_app, H63, Ht63. }
  assert (Hp : exists others,
             URLSearchParams (name ++ 61 :: v ++ tail)
             = (name, decodeField v) :: others).
  { unfold URLSearchParams.
    change (match name ++ 61 :: v ++ tail with 63 :: rest => rest | _ => name ++ 61 :: v ++ tail end)
      with (name ++ 61 :: v ++ tail).
    change (name ++ 61 :: v ++ tail) with ((name ++ [61]) ++ v ++ tail).
    rewrite utf8Bytes_ascii by reflexivity.
    rewrite utf8Bytes_ascii by assumption.
    assert (Hs : exists others,
               splitOn 38 ((name ++ [61]) ++ v ++ utf8Bytes tail)
               = (name ++ 61 :: v) :: others).
    { destruct Htail as [-> | [rest ->]].
      - exists []. cbn [utf8Bytes]. rewrite app_nil_r.
        rewrite splitOn_single; [now rewrite <- app_assoc|].
        now rewrite forallb_app, H38.
      - exists (splitOn 38 (utf8Bytes rest)).
        change (38 :: rest) with ([38] ++ rest).
        rewrite utf8Bytes_ascii by reflexivity. cbn [app].
        change ((name ++ [61]) ++ v ++ 38 :: utf8Bytes rest)
          with (((name ++ [61]) ++ v) ++ 38 :: utf8Bytes rest) at 1.
        rewrite splitOn_first; [now rewrite <- app_assoc|].
        now rewrite forallb_app, H38. }
    destruct Hs as [others ->]. cbn [flat_map].
    change (name ++ 61 :: v) with (114 :: (skipn 1 name) ++ 61 :: v) at 1.
    cbv iota. rewrite splitFirst61_app by reflexivity.
    eexists. reflexivity. }
  destruct Hp as [others Hp].
  assert (Hrec : recovered w = Some (decodeField v)).
  { unfold recovered. fold name. rewrite Hq, Hp. reflexivity. }
  split; [now apply checkRedirectFragment_found|].
  split; [unfold fragmentRead; now rewrite Hrec|].
  intros Hplain. unfold decodeField.
  rewrite plusToSpace_plain, percentDecode_plain, utf8Decode_ascii; trivial.
  - revert Hplain. apply forallb_weaken. intros c Hc. now apply andb_true_iff in Hc.
  - revert Hplain. apply forallb_weaken. intros c Hc. now apply andb_true_iff in Hc.
Qed.

End RedirectFacts.

(** * The further properties on concrete strings and bindings *)

Section MoreInstances.

Import Concrete.

Lemma encodeFragment_decodes_witness :
  exists enc, encodeFragment [8364; 55357; 56832] = Ok enc
              /\ decodeURIComponent enc = Ok [8364; 55357; 56832].
Proof.
  apply (encodeFragment_decodes [8364; 55357; 56832]). vm_compute. reflexivity.
Defined.

Lemma encodeFragment_alphabet_witness :
  Forall (fun c => fragmentSafe c = true /\ isExtraEscaped c = false /\ c < 128)
         (js "%E2%82%AC%28%F0%9F%98%80%29").
Proof.
  apply (encodeFragment_alphabet [8364; 40; 55357; 56832; 41]).
  - vm_compute. reflexivity.
  - vm_compute. reflexivity.
Defined.

Lemma encodeFragment_throws_witness :
  (well_formed [97; 55357] = false <-> encodeFragment [97; 55357] = Raise URIError)
  /\ (well_formed [97; 55357] = true <-> exists enc, encodeFragment [97; 55357] = Ok enc).
Proof.
  apply (encodeFragment_throws [97; 55357]). vm_compute. reflexivity.
Defined.

Lemma encodeFragment_app_witness :
  exists ea eb, encodeFragment (js "{(") = Ok ea /\ encodeFragment [8364] = Ok eb
                /\ encodeFragment (js "{(" ++ [8364]) = Ok (ea ++ eb).
Proof.
  apply (encodeFragment_app (js "{(") [8364]).
  - vm_compute. reflexivity.
  - vm_compute. reflexivity.
Defined.

Lemma encodeFragment_plain_witness :
  encodeFragment (js "http://h/p?a=1&b=2#x") = Ok (js "http://h/p?a=1&b=2#x").
Proof.
  apply (encodeFragment_plain (js "http://h/p?a=1&b=2#x")). vm_compute. reflexivity.
Defined.

Lemma removeParameterFromUrl_absent_witness :
  removeParameterFromUrl (js "http://h/p?xjson_url=u&a=1#!x") (js "json_url")
  = js "http://h/p?xjson_url=u&a=1#!x".
Proof.
  apply (removeParameterFromUrl_absent (js "json_url")).
  - vm_compute. reflexivity.
  - vm_compute. reflexivity.
Defined.

Lemma removeParameterFromUrl_last_witness :
  removeParameterFromUrl (js "http://h/p?a=1&json_url=u#!x") (js "json_url")
  = js "http://h/p?a=1#!x".
Proof.
  refine (removeParameterFromUrl_last (js "json_url") _
            (js "http://h/p?a=1") (js "u") (js "#!x") 38 _ _ _ _ _).
  - vm_compute. reflexivity.
  - vm_compute. reflexivity.
  - vm_compute. reflexivity.
  - vm_compute. reflexivity.
  - right. exists (js "!x"). split; vm_compute; reflexivity.
  - vm_compute. reflexivity.
Defined.

Lemma removeParameterFromUrl_inner_witness :
  removeParameterFromUrl (js "http://h/p?json_url=u&a=1#!x") (js "json_url")
  = js "http://h/p?a=1#!x".
Proof.
  refine (removeParameterFromUrl_inner (js "json_url") _
            (js "http://h/p") (js "u") (js "a=1#!x") 63 _ _ _ _ _).
  - vm_compute. reflexivity.
  - vm_compute. reflexivity.
  - vm_compute. reflexivity.
  - vm_compute. reflexivity.
  - vm_compute. reflexivity.
  - vm_compute. reflexivity.
Defined.

Lemma setUrlHash_describes_tree_witness :
  let w := world0 ex_a1 (js "http://h/p") in
  fst (setUrlHash w) = Normal tt
  /\ prevStateString (after setUrlHash w) = Some enc_a1
  /\ prevStateGeneration (after setUrlHash w) = Some 1%Z.
Proof.
  intros w.
  destruct (setUrlHash_describes_tree w) as [enc [He [Hn Hp]]].
  - vm_compute. reflexivity.
  - split; [exact Hn|].
    assert (E : enc = enc_a1).
    { vm_compute in He. injection He as <-. reflexivity. }
    rewrite <- E. apply Hp. vm_compute. discriminate.
Defined.

Lemma setUrlHash_writes_fragment_witness :
  let w := world0 ex_a1 (js "http://h/p?json_url=u#!x") in
  replace_before_hash (href (after setUrlHash w)) = js "#!" ++ enc_a1
  /\ beforeHash (href (after setUrlHash w)) = js "http://h/p".
Proof.
  intros w.
  destruct (setUrlHash_writes_fragment w) as [enc [He Hp]].
  - vm_compute. reflexivity.
  - vm_compute. discriminate.
  - assert (E : enc = enc_a1).
    { vm_compute in He. injection He as <-. reflexivity. }
    subst enc. apply Hp. vm_compute. discriminate.
Defined.

Lemma setUrlHash_writes_after_read_witness :
  let w := after update (world0 (JObject []) (js "http://h/p#!%7B%22a%22:1%7D")) in
  toJSON (root w) = ex_a1
  /\ exists enc,
       encodeFragment (JSON_stringify ex_a1) = Ok enc
       /\ prevStateString (after setUrlHash w) = Some enc
       /\ calls (after setUrlHash w)
          = calls w ++ [CReplaceState (js "http://h/p#!%7B%22a%22:1%7D");
                        CReplaceState (js "#!" ++ enc)].
Proof.
  intros w. split; [reflexivity|].
  apply (setUrlHash_writes_after_read w (JSON_stringify ex_a1) [(js "a", JNumber 1)]).
  - vm_compute. reflexivity.
  - vm_compute. reflexivity.
  - vm_compute. reflexivity.
  - vm_compute. reflexivity.
  - vm_compute. discriminate.
Defined.

Lemma setUrlHash_idle_witness :
  let w := mkWorld (mkTree ex_a1 4) (js "http://h/p#!x") None (Some 4%Z) None [] in
  setUrlHash w = (Normal tt, log (CReplaceState (js "http://h/p#!x")) w).
Proof.
  intros w. apply (setUrlHash_idle w).
  - vm_compute. reflexivity.
  - vm_compute. reflexivity.
  - vm_compute. reflexivity.
Defined.

Lemma updateFromUrlHash_twice_witness :
  parseError world_failed = Some SyntaxError
  /\ prevStateString world_failed = Some (js "x")
  /\ update world_failed = (Return, world_failed).
Proof.
  split; [vm_compute; reflexivity|].
  apply (updateFromUrlHash_twice urlSafeParse parseSpecialUrl
           (world0 ex_a1 (js "http://h/p#!x")) (js "x")); vm_compute; reflexivity.
Defined.

Lemma legacy_form_merges_witness :
  let w := mkWorld (mkTree (JObject []) 1) (js "http://h/p#!+%7B%22a%22:1%7D")
                   (Some (js "{}")) None None [] in
  let w' := after update w in
  calls w' = [CRestoreState ex_a1] /\ prevStateString w' = None.
Proof.
  intros w w'.
  destruct (legacy_form_merges urlSafeParse parseSpecialUrl w) as [_ [Hs _]].
  - vm_compute. reflexivity.
  - split; [vm_compute; reflexivity|]. apply Hs. vm_compute. reflexivity.
Defined.

Lemma remote_form_defers_witness :
  let w := world0 ex_a1 (js "http://h/p#!gs://bucket/state.json") in
  update w = (Normal tt, set_parseError None (log (CFetch (js "gs://bucket/state.json")) w)).
Proof.
  intros w.
  apply (remote_form_defers urlSafeParse parseSpecialUrl w). vm_compute. reflexivity.
Defined.

Lemma remoteStateLoaded_calls_witness :
  let w := world0 (JObject []) (js "http://h/p#!gs://bucket/state.json") in
  remoteStateLoaded (JArray []) w = (Throw NotAnObject, w)
  /\ calls (snd (remoteStateLoaded ex_a1 w)) = [CReset; CRestoreState ex_a1]
  /\ prevStateGeneration (snd (remoteStateLoaded ex_a1 w)) = None.
Proof.
  intros w. split.
  - apply (proj1 (remoteStateLoaded_calls (JArray []) w)). reflexivity.
  - destruct (proj2 (remoteStateLoaded_calls ex_a1 w)) as [Hc [_ [Hg _]]].
    + reflexivity.
    + split; [exact Hc|exact Hg].
Defined.

Lemma query_after_last_question_witness :
  let w := world0 ex_a1 (js "http://h/p?a=1#!?redirect_fragment=y") in
  checkRedirectFragment w = (Normal (true, js "#y"), w).
Proof.
  intros w.
  apply (query_after_last_question w (js "http://h/p?a=1#!") (js "redirect_fragment=y")).
  - vm_compute. reflexivity.
  - vm_compute. reflexivity.
  - vm_compute. reflexivity.
Defined.

Lemma checkRedirectFragment_reads_witness :
  let w := world0 ex_a1 (js "http://h/p?redirect_fragment=!abc#!x&state=1") in
  checkRedirectFragment w = (Normal (true, js "#!abc#!x"), w)
  /\ fragmentRead w = (true, js "#!abc#!x").
Proof.
  intros w.
  destruct (checkRedirectFragment_reads w (js "http://h/p") (js "!abc#!x")
              (js "&state=1")) as [Hc [Hf Hv]].
  - vm_compute. reflexivity.
  - vm_compute. reflexivity.
  - vm_compute. reflexivity.
  - right. exists (js "state=1"). vm_compute. reflexivity.
  - vm_compute. reflexivity.
  - rewrite Hv in Hc, Hf by (vm_compute; reflexivity). split; [exact Hc|exact Hf].
Defined.

End MoreInstances.
